(** * Payment reconciliation API: matching engine, report, create and read operations

    A shallow embedding of [app/main.py], [app/models/db_schema.py] and
    [app/schemas/reconciliation.py].

    - The three tables are lists of rows, in the order a full scan reads them.
    - The SQLAlchemy session is explicit: objects whose status was assigned
      are kept in a unit of work and written back by primary key on commit.
    - Database calls that can raise are named ([DbCall]); a run is given the
      call that raises, if any, and follows the [try]/[except] of the source.
    - The audit columns [created_at]/[updated_at] are left out: they are
      wall-clock values maintained by column defaults, not by the endpoints. *)

From Stdlib Require Import ZArith String.
From stdpp Require Import gmap strings list fin_maps.

Local Open Scope Z_scope.

(** ** Scalars *)

(** [Numeric(10, 2)]: an amount is kept as its number of hundredths, so that
    Python's [Decimal] comparison is equality on [Z]. *)
Definition Decimal := Z.

(** [Date]: a calendar date is its proleptic Gregorian ordinal
    ([date.toordinal()]), so that [(d1 - d2).days] is a subtraction. *)
Definition date := Z.

(** [float(...)]: the responses carry amounts as doubles. No arithmetic is ever
    done on a double here: each one is the image of a [Decimal] (or of the
    literal [0]), and is kept as the value it was converted from. *)
Inductive pyfloat := Float (hundredths : Z).

Definition float (d : Decimal) : pyfloat := Float d.

#[global] Instance pyfloat_eq_dec : EqDecision pyfloat.
Proof. solve_decision. Defined.

(** ** app/models/db_schema.py *)

Module OrderStatus.
Inductive t := pending | completed | failed | reconciled.
#[global] Instance eq_dec : EqDecision t.
Proof. solve_decision. Defined.
End OrderStatus.

Module PaymentStatus.
Inductive t := pending | completed | failed | reconciled.
#[global] Instance eq_dec : EqDecision t.
Proof. solve_decision. Defined.
End PaymentStatus.

Module Merchant.
Record t := mk {
  id : Z;
  merchant_id : string;
  merchant_name : string }.
End Merchant.

(** The code tests [merchant_id] against [None] and the dates for truth, so
    both are optional here although the columns are declared NOT NULL. *)
Module Order.
Record t := mk {
  id : Z;
  merchant_id : option Z;
  merchant_order_id : string;
  amount : Decimal;
  currency : string;
  description : option string;
  order_date : option date;
  status : OrderStatus.t }.

(** [order.status = s] *)
Definition set_status (o : t) (s : OrderStatus.t) : t :=
  mk (id o) (merchant_id o) (merchant_order_id o) (amount o) (currency o)
     (description o) (order_date o) s.

#[global] Instance eq_dec : EqDecision t.
Proof. solve_decision. Defined.
End Order.

Module Payment.
Record t := mk {
  id : Z;
  merchant_id : option Z;
  merchant_order_id : string;
  amount : Decimal;
  currency : string;
  description : option string;
  payment_date : option date;
  status : PaymentStatus.t }.

(** [payment.status = s] *)
Definition set_status (p : t) (s : PaymentStatus.t) : t :=
  mk (id p) (merchant_id p) (merchant_order_id p) (amount p) (currency p)
     (description p) (payment_date p) s.

#[global] Instance eq_dec : EqDecision t.
Proof. solve_decision. Defined.
End Payment.

(** The record store: one list of rows per table. *)
Record Store := mkStore {
  merchants : list Merchant.t;
  orders : list Order.t;
  payments : list Payment.t }.

(** [primary_key=True] on [id] and [unique=True] on [merchant_order_id]
    (and on the merchant's business identifier): what the schema makes the
    database enforce on every stored state. *)
Record schema_constraints (db : Store) : Prop := mkConstraints {
  merchants_pk : NoDup (Merchant.id <$> merchants db);
  merchants_unique : NoDup (Merchant.merchant_id <$> merchants db);
  orders_pk : NoDup (Order.id <$> orders db);
  orders_unique : NoDup (Order.merchant_order_id <$> orders db);
  payments_pk : NoDup (Payment.id <$> payments db);
  payments_unique : NoDup (Payment.merchant_order_id <$> payments db) }.

(** ** app/schemas/reconciliation.py *)

Module MatchedPair.
Record t := mk {
  order_id : Z;
  payment_id : Z;
  merchant_order_id : string;
  amount : pyfloat }.
End MatchedPair.

Module ReconciliationResult.
Record t := mk {
  matched_count : nat;
  matched_pairs : list MatchedPair.t;
  unmatched_orders : list string;
  unmatched_payments : list string }.
End ReconciliationResult.

(** One [dict] of [merchants_summary]. *)
Module MerchantSummary.
Record t := mk {
  merchant_id : Z;
  reconciled_count : Z;
  reconciled_amount : pyfloat;
  unmatched_orders : Z;
  unmatched_payments : Z }.
End MerchantSummary.

Module ReconciliationReport.
Record t := mk {
  total_reconciled_amount : pyfloat;
  total_reconciled_count : Z;
  total_unmatched_orders : Z;
  total_unmatched_payments : Z;
  unmatched_orders_amount : pyfloat;
  unmatched_payments_amount : pyfloat;
  merchants_summary : list MerchantSummary.t }.
End ReconciliationReport.

Module DiscrepanciesResponse.
Record t := mk {
  unmatched_orders : list Order.t;
  unmatched_payments : list Payment.t }.
End DiscrepanciesResponse.

Module HTTPException.
Record t := mk {
  status_code : Z;
  detail : string }.
End HTTPException.

Definition HTTP_400_BAD_REQUEST : Z := 400.
Definition HTTP_404_NOT_FOUND : Z := 404.
Definition HTTP_409_CONFLICT : Z := 409.
Definition HTTP_500_INTERNAL_SERVER_ERROR : Z := 500.

(** ** The session

    Objects loaded by a query stay attached to the session; assigning an
    attribute marks the object dirty, and [db.commit()] writes every dirty
    object back with [UPDATE ... SET status = ... WHERE id = ...]. *)
Record Session := mkSession {
  dirty_orders : list Order.t;
  dirty_payments : list Payment.t }.

Definition update_order (obj row : Order.t) : Order.t :=
  if decide (Order.id row = Order.id obj)
  then Order.set_status row (Order.status obj) else row.

Definition update_payment (obj row : Payment.t) : Payment.t :=
  if decide (Payment.id row = Payment.id obj)
  then Payment.set_status row (Payment.status obj) else row.

Definition flush_orders (dirty : list Order.t) (table : list Order.t) : list Order.t :=
  foldl (λ tbl obj, update_order obj <$> tbl) table dirty.

Definition flush_payments (dirty : list Payment.t) (table : list Payment.t) : list Payment.t :=
  foldl (λ tbl obj, update_payment obj <$> tbl) table dirty.

(** [db.commit()] when it goes through: the whole unit of work, at once. *)
Definition commit (sess : Session) (db : Store) : Store :=
  mkStore (merchants db)
          (flush_orders (dirty_orders sess) (orders db))
          (flush_payments (dirty_payments sess) (payments db)).

(** [db.query(Order).filter(Order.status == OrderStatus.completed).all()] *)
Definition query_completed_orders (db : Store) : list Order.t :=
  filter (λ o, Order.status o = OrderStatus.completed) (orders db).

(** [db.query(Payment).filter(Payment.status == PaymentStatus.completed).all()] *)
Definition query_completed_payments (db : Store) : list Payment.t :=
  filter (λ p, Payment.status p = PaymentStatus.completed) (payments db).

(** ** reconcile_transactions: the matching loop *)

(** The inner [for payment in payments] loop for one order: every [continue]
    moves to the next payment, the match at the end of the body [break]s.
    The payment at which the loop stopped is returned, [None] when the loop
    ran to its end. *)
Fixpoint scan_payments (order : Order.t) (matched_payment_ids : gset Z)
    (payments : list Payment.t) : option Payment.t :=
  match payments with
  | [] => None
  | payment :: rest =>
      (* Skip if payment already matched *)
      if decide (Payment.id payment ∈ matched_payment_ids)
      then scan_payments order matched_payment_ids rest
      (* Rule 1 & 2 *)
      else if bool_decide (Payment.merchant_order_id payment ≠ Order.merchant_order_id order)
              || bool_decide (Payment.merchant_id payment ≠ Order.merchant_id order)
      then scan_payments order matched_payment_ids rest
      (* Rule 3 *)
      else if bool_decide (Payment.amount payment ≠ Order.amount order)
      then scan_payments order matched_payment_ids rest
      else
        (* Rule 4 *)
        match Order.order_date order, Payment.payment_date payment with
        | Some order_date, Some payment_date =>
            let date_diff := Z.abs (payment_date - order_date) in
            if 3 <? date_diff
            then scan_payments order matched_payment_ids rest
            else Some payment
        | _, _ => Some payment
        end
  end.

(** What the run has accumulated before an order is looked at. *)
Record MatchState := mkMatchState {
  matched_pairs : list MatchedPair.t;
  matched_order_ids : gset Z;
  matched_payment_ids : gset Z;
  session : Session }.

Definition initial_state : MatchState :=
  mkMatchState [] ∅ ∅ (mkSession [] []).

(** The body run at a match, up to the [break]. *)
Definition record_match (s : MatchState) (order : Order.t) (payment : Payment.t) : MatchState :=
  let order' := Order.set_status order OrderStatus.reconciled in
  let payment' := Payment.set_status payment PaymentStatus.reconciled in
  mkMatchState
    (matched_pairs s ++
       [MatchedPair.mk (Order.id order) (Payment.id payment)
                       (Order.merchant_order_id order) (float (Order.amount order))])
    ({[Order.id order]} ∪ matched_order_ids s)
    ({[Payment.id payment]} ∪ matched_payment_ids s)
    (mkSession (dirty_orders (session s) ++ [order'])
               (dirty_payments (session s) ++ [payment'])).

(** One iteration of the outer [for order in orders] loop. *)
Definition match_order (payments : list Payment.t) (s : MatchState) (order : Order.t) : MatchState :=
  match scan_payments order (matched_payment_ids s) payments with
  | Some payment => record_match s order payment
  | None => s
  end.

Definition matching_loop (orders : list Order.t) (payments : list Payment.t) : MatchState :=
  foldl (match_order payments) initial_state orders.

(** ** reconcile_transactions: the endpoint *)

(** The database calls of a run, in the order they are made. With the session
    factory of [app/database.py] ([expire_on_commit] left at its default) the
    attributes read after the commit, to build the unmatched lists, are
    reloaded from the database: [Refresh]. *)
Inductive DbCall := QueryOrders | QueryPayments | Commit | Refresh.

(** The unmatched lists read [o.id] of every order and [p.id] of every
    payment of the working set: with an empty working set nothing is read
    after the commit, and no reload takes place. *)
Definition reads_after_commit (orders : list Order.t) (payments : list Payment.t) : bool :=
  match orders, payments with
  | [], [] => false
  | _, _ => true
  end.

#[global] Instance DbCall_eq_dec : EqDecision DbCall.
Proof. solve_decision. Defined.

Definition raises (fault : option DbCall) (call : DbCall) : bool :=
  bool_decide (fault = Some call).

(** The [except Exception] handler: [db.rollback()] discards what is not yet
    committed, so the store is the one given, and the caller gets a 500. *)
Definition reconciliation_failed (db : Store) : Store * (HTTPException.t + ReconciliationResult.t) :=
  (db, inl (HTTPException.mk HTTP_500_INTERNAL_SERVER_ERROR
                             "An error occurred during reconciliation")).

Definition reconcile_transactions (fault : option DbCall) (db : Store)
    : Store * (HTTPException.t + ReconciliationResult.t) :=
  if raises fault QueryOrders then reconciliation_failed db else
  let orders := query_completed_orders db in
  if raises fault QueryPayments then reconciliation_failed db else
  let payments := query_completed_payments db in
  let s := matching_loop orders payments in
  (* Commit all status updates to database *)
  if raises fault Commit then reconciliation_failed db else
  let db' := commit (session s) db in
  (* Find unmatched transactions *)
  if raises fault Refresh && reads_after_commit orders payments
  then reconciliation_failed db' else
  let unmatched_orders :=
    Order.merchant_order_id <$> filter (λ o, Order.id o ∉ matched_order_ids s) orders in
  let unmatched_payments :=
    Payment.merchant_order_id <$> filter (λ p, Payment.id p ∉ matched_payment_ids s) payments in
  (db', inr (ReconciliationResult.mk (length (matched_pairs s)) (matched_pairs s)
                                     unmatched_orders unmatched_payments)).


(** ** get_reconciliation_report *)

(** One row of [db.query(func.count(...), func.sum(...))]. SQL's SUM over no
    row is NULL. *)
Record Stats := mkStats {
  count : Z;
  total : option Decimal }.

Definition sql_count {A} (rows : list A) : Z := Z.of_nat (length rows).

Definition sql_sum (amounts : list Decimal) : option Decimal :=
  match amounts with
  | [] => None
  | _ => Some (foldr Z.add 0 amounts)
  end.

(** An aggregate query without GROUP BY answers with exactly one row. *)
Definition aggregate (amounts : list Decimal) : list Stats :=
  [mkStats (sql_count amounts) (sql_sum amounts)].

(** [stats.count or 0] *)
Definition count_or_0 (c : Z) : Z := if decide (c = 0) then 0 else c.

(** [stats.total or 0]: [None] and a zero [Decimal] are both falsy. *)
Definition total_or_0 (t : option Decimal) : Decimal :=
  match t with
  | Some d => if decide (d = 0) then 0 else d
  | None => 0
  end.

(** [GROUP BY merchant_id], on rows already filtered by
    [merchant_id.isnot(None)]: one group per merchant reference. *)
Definition group_by {A} (key : A → option Z) (rows : list A) : list (Z * list A) :=
  (λ k, (k, filter (λ r, key r = Some k) rows)) <$> remove_dups (omap key rows).

(** A dict comprehension [{row[0]: value(row) for row in rows}]: a later row
    replaces an earlier one with the same key. *)
Definition dict_of {V} (rows : list (Z * V)) : gmap Z V :=
  foldl (λ d row, <[row.1 := row.2]> d) ∅ rows.

Definition report_failed : HTTPException.t :=
  HTTPException.mk HTTP_500_INTERNAL_SERVER_ERROR
                   "An error occurred while generating the report".

Definition reconciled_payments (db : Store) : list Payment.t :=
  filter (λ p, Payment.status p = PaymentStatus.reconciled) (payments db).

(** Query 4: reconciled amounts by merchant. *)
Definition reconciled_by_merchant (db : Store) : list (Z * (Z * option Decimal)) :=
  (λ g, (g.1, (sql_count g.2, sql_sum (Payment.amount <$> g.2)))) <$>
  group_by Payment.merchant_id
    (filter (λ p, Payment.merchant_id p ≠ None) (reconciled_payments db)).

(** Query 5: unmatched orders per merchant. *)
Definition unmatched_orders_by_merchant (db : Store) : list (Z * Z) :=
  (λ g, (g.1, sql_count g.2)) <$>
  group_by Order.merchant_id
    (filter (λ o, Order.merchant_id o ≠ None) (query_completed_orders db)).

(** Query 6: unmatched payments per merchant. *)
Definition unmatched_payments_by_merchant (db : Store) : list (Z * Z) :=
  (λ g, (g.1, sql_count g.2)) <$>
  group_by Payment.merchant_id
    (filter (λ p, Payment.merchant_id p ≠ None) (query_completed_payments db)).

(** The three dictionaries, the union of their keys, and one summary per
    key. A Python set is iterated in an order of its own; so is a [gset]. *)
Definition merchants_summary (db : Store) : list MerchantSummary.t :=
  let reconciled_dict : gmap Z (Z * pyfloat) :=
    dict_of ((λ row, (row.1, (row.2.1, float (total_or_0 row.2.2))))
               <$> reconciled_by_merchant db) in
  let unmatched_orders_dict : gmap Z Z := dict_of (unmatched_orders_by_merchant db) in
  let unmatched_payments_dict : gmap Z Z := dict_of (unmatched_payments_by_merchant db) in
  let all_merchant_ids : gset Z :=
    dom reconciled_dict ∪ dom unmatched_orders_dict ∪ dom unmatched_payments_dict in
  (λ merchant_id,
     MerchantSummary.mk merchant_id
       (default 0 (fst <$> reconciled_dict !! merchant_id))
       (default (Float 0) (snd <$> reconciled_dict !! merchant_id))
       (default 0 (unmatched_orders_dict !! merchant_id))
       (default 0 (unmatched_payments_dict !! merchant_id)))
  <$> elements all_merchant_ids.

(** The database calls of the report are taken to answer; what can still
    raise is the attribute access on the result of [.first()]. *)
Definition get_reconciliation_report (db : Store) : HTTPException.t + ReconciliationReport.t :=
  (* Query 1 *)
  match head (aggregate (Payment.amount <$> reconciled_payments db)) with
  | None => inl report_failed
  | Some reconciled_stats =>
  let reconciled_count := count_or_0 (count reconciled_stats) in
  let reconciled_amount := float (total_or_0 (total reconciled_stats)) in
  (* Query 2 *)
  match head (aggregate (Order.amount <$> query_completed_orders db)) with
  | None => inl report_failed
  | Some unmatched_orders_stats =>
  let unmatched_orders_count := count_or_0 (count unmatched_orders_stats) in
  let unmatched_orders_amount := float (total_or_0 (total unmatched_orders_stats)) in
  (* Query 3 *)
  match head (aggregate (Payment.amount <$> query_completed_payments db)) with
  | None => inl report_failed
  | Some unmatched_payments_stats =>
  let unmatched_payments_count := count_or_0 (count unmatched_payments_stats) in
  let unmatched_payments_amount := float (total_or_0 (total unmatched_payments_stats)) in
  inr (ReconciliationReport.mk reconciled_amount reconciled_count
         unmatched_orders_count unmatched_payments_count
         unmatched_orders_amount unmatched_payments_amount
         (merchants_summary db))
  end end end.

(** ** get_discrepancies *)

Definition get_discrepancies (db : Store) : DiscrepanciesResponse.t :=
  DiscrepanciesResponse.mk (query_completed_orders db) (query_completed_payments db).

(** ** create_merchant, create_order, create_payment *)

Module MerchantCreate.
Record t := mk {
  merchant_id : string;
  merchant_name : string }.
End MerchantCreate.

(** [amount] is the request's number in hundredths, as a [Numeric(10, 2)]
    column rounds it; the schema asks for [gt=0] and sets no upper bound. *)
Module OrderCreate.
Record t := mk {
  merchant_id : string;
  merchant_order_id : string;
  amount : Decimal;
  currency : string;
  description : option string;
  order_date : date;
  status : OrderStatus.t }.
End OrderCreate.

Module PaymentCreate.
Record t := mk {
  merchant_id : string;
  merchant_order_id : string;
  amount : Decimal;
  currency : string;
  description : option string;
  payment_date : date;
  status : PaymentStatus.t }.
End PaymentCreate.

(** What [db.commit()] of an INSERT raises: [sqlalchemy.exc.IntegrityError],
    with the driver's message [str(e.orig)], for a violated key, and
    [sqlalchemy.exc.DataError] for a value the column cannot hold. The second
    is not an [IntegrityError]: it reaches the [except Exception] handler. *)
Inductive DatabaseError :=
  | IntegrityError (orig : string)
  | DataError.

(** [Numeric(10, 2)]: ten digits, two of them after the point. The request
    schemas put no upper bound on [amount], so a request can carry an amount
    the column refuses. *)
Definition fits_numeric_10_2 (amount : Decimal) : Prop :=
  -9999999999 ≤ amount ≤ 9999999999.

#[global] Instance fits_numeric_10_2_dec amount : Decision (fits_numeric_10_2 amount).
Proof. unfold fits_numeric_10_2. apply _. Defined.

(** [needle in haystack] on strings. *)
Fixpoint contains (needle haystack : string) : bool :=
  String.prefix needle haystack ||
  match haystack with
  | EmptyString => false
  | String _ rest => contains needle rest
  end.

(** The next value of an AUTO_INCREMENT primary key. *)
Definition next_id (ids : list Z) : Z := 1 + foldr Z.max 0 ids.

(** [.filter(Merchant.merchant_id == merchant_id).first()] *)
Definition find_merchant (merchant_id : string) (db : Store) : option Merchant.t :=
  head (filter (λ m, Merchant.merchant_id m = merchant_id) (merchants db)).

Definition create_merchant (merchant : MerchantCreate.t) (db : Store)
    : Store * (HTTPException.t + Merchant.t) :=
  match find_merchant (MerchantCreate.merchant_id merchant) db with
  | Some existing =>
      (db, inl (HTTPException.mk HTTP_409_CONFLICT
                  ("Merchant '" +:+ MerchantCreate.merchant_id merchant +:+ "' already exists")))
  | None =>
      let db_merchant :=
        Merchant.mk (next_id (Merchant.id <$> merchants db))
                    (MerchantCreate.merchant_id merchant)
                    (MerchantCreate.merchant_name merchant) in
      (mkStore (merchants db ++ [db_merchant]) (orders db) (payments db), inr db_merchant)
  end.

Section Create.

(** The text of the database's duplicate-key error, given the table and the
    offending value. It comes from the MySQL driver, not from this code. *)
Variable duplicate_key_message : string → string → string.

(** [db.add(db_order); db.commit()]: the INSERT is refused with a data error
    when the amount does not fit the column (MySQL converts the values of the
    row before it looks at the keys), and with an integrity error when the
    unique key [merchant_order_id] is already taken (keys are compared as
    Python compares strings); the row is stored otherwise. *)
Definition insert_order (row : Order.t) (db : Store) : DatabaseError + Store :=
  if decide (fits_numeric_10_2 (Order.amount row))
  then
    if decide (Order.merchant_order_id row ∈ Order.merchant_order_id <$> orders db)
    then inl (IntegrityError (duplicate_key_message "orders" (Order.merchant_order_id row)))
    else inr (mkStore (merchants db) (orders db ++ [row]) (payments db))
  else inl DataError.

Definition insert_payment (row : Payment.t) (db : Store) : DatabaseError + Store :=
  if decide (fits_numeric_10_2 (Payment.amount row))
  then
    if decide (Payment.merchant_order_id row ∈ Payment.merchant_order_id <$> payments db)
    then inl (IntegrityError (duplicate_key_message "payments" (Payment.merchant_order_id row)))
    else inr (mkStore (merchants db) (orders db) (payments db ++ [row]))
  else inl DataError.

Definition create_order (order : OrderCreate.t) (db : Store)
    : Store * (HTTPException.t + Order.t) :=
  (* Step 1: Look up merchant by business identifier *)
  match find_merchant (OrderCreate.merchant_id order) db with
  | None =>
      (db, inl (HTTPException.mk HTTP_404_NOT_FOUND
                  ("Merchant with merchant_id '" +:+ OrderCreate.merchant_id order +:+ "' not found")))
  | Some merchant =>
      (* Step 2: Create new order with merchant's database ID *)
      let db_order :=
        Order.mk (next_id (Order.id <$> orders db))
                 (Some (Merchant.id merchant))
                 (OrderCreate.merchant_order_id order)
                 (OrderCreate.amount order)
                 (OrderCreate.currency order)
                 (OrderCreate.description order)
                 (Some (OrderCreate.order_date order))
                 (OrderCreate.status order) in
      (* Step 3: Try to save - catch database integrity errors *)
      match insert_order db_order db with
      | inr db' => (db', inr db_order)
      | inl (IntegrityError orig) =>
          (* except IntegrityError: db.rollback() *)
          if contains "merchant_order_id" orig
          then (db, inl (HTTPException.mk HTTP_400_BAD_REQUEST
                           ("Order with merchant_order_id '"
                            +:+ OrderCreate.merchant_order_id order +:+ "' already exists")))
          else (db, inl (HTTPException.mk HTTP_400_BAD_REQUEST "Database constraint violation"))
      | inl DataError =>
          (* except Exception: db.rollback() *)
          (db, inl (HTTPException.mk HTTP_500_INTERNAL_SERVER_ERROR
                      "An unexpected error occurred"))
      end
  end.

Definition create_payment (payment : PaymentCreate.t) (db : Store)
    : Store * (HTTPException.t + Payment.t) :=
  match find_merchant (PaymentCreate.merchant_id payment) db with
  | None =>
      (db, inl (HTTPException.mk HTTP_404_NOT_FOUND
                  ("Merchant with merchant_id '" +:+ PaymentCreate.merchant_id payment +:+ "' not found")))
  | Some merchant =>
      let db_payment :=
        Payment.mk (next_id (Payment.id <$> payments db))
                   (Some (Merchant.id merchant))
                   (PaymentCreate.merchant_order_id payment)
                   (PaymentCreate.amount payment)
                   (PaymentCreate.currency payment)
                   (PaymentCreate.description payment)
                   (Some (PaymentCreate.payment_date payment))
                   (PaymentCreate.status payment) in
      match insert_payment db_payment db with
      | inr db' => (db', inr db_payment)
      | inl (IntegrityError orig) =>
          if contains "merchant_order_id" orig
          then (db, inl (HTTPException.mk HTTP_400_BAD_REQUEST
                           ("Payment with merchant_order_id '"
                            +:+ PaymentCreate.merchant_order_id payment +:+ "' already exists")))
          else (db, inl (HTTPException.mk HTTP_400_BAD_REQUEST "Database constraint violation"))
      | inl DataError =>
          (db, inl (HTTPException.mk HTTP_500_INTERNAL_SERVER_ERROR
                      "An unexpected error occurred"))
      end
  end.

End Create.

(** MySQL 8 names the violated index in its duplicate-key error; the unique
    index SQLAlchemy creates for the column is [ix_<table>_merchant_order_id]. *)
Definition mysql_duplicate_key_message (table value : string) : string :=
  "Duplicate entry '" +:+ value +:+ "' for key '" +:+ table +:+ ".ix_" +:+ table
  +:+ "_merchant_order_id'".

(** ** The matching rules, in the words of the specification

    These follow section 4.1 of the specification, not the code; the theorems
    below compare them with [scan_payments] and [matching_loop]. *)

(** Rule 4: the payment date is within three days of the order date when both
    dates are present; the rule is skipped otherwise. *)
Definition spec_within_window (o : Order.t) (p : Payment.t) : Prop :=
  match Order.order_date o, Payment.payment_date p with
  | Some order_date, Some payment_date => Z.abs (payment_date - order_date) ≤ 3
  | _, _ => True
  end.

(** Rules 1 to 4 for a candidate payment, [consumed] being the payments taken
    by earlier matches of the run. *)
Definition spec_satisfies (consumed : gset Z) (o : Order.t) (p : Payment.t) : Prop :=
  (Payment.id p ∉ consumed) ∧
  Payment.merchant_order_id p = Order.merchant_order_id o ∧
  Payment.merchant_id p = Order.merchant_id o ∧
  Payment.amount p = Order.amount o ∧
  spec_within_window o p.

#[global] Instance within_window_dec o p : Decision (spec_within_window o p).
Proof. unfold spec_within_window. destruct (Order.order_date o), (Payment.payment_date p); apply _. Defined.

#[global] Instance satisfies_dec consumed o p : Decision (spec_satisfies consumed o p).
Proof. unfold spec_satisfies. apply _. Defined.

(** First fit: each order, in read order, takes the first payment, in read
    order, that satisfies the rules; that payment is consumed, and the scan
    for this order stops there. *)
Fixpoint spec_first_fit (consumed : gset Z) (orders : list Order.t) (payments : list Payment.t)
    : list (Order.t * Payment.t) :=
  match orders with
  | [] => []
  | o :: rest =>
      match list_find (spec_satisfies consumed o) payments with
      | Some (_, p) => (o, p) :: spec_first_fit ({[Payment.id p]} ∪ consumed) rest payments
      | None => spec_first_fit consumed rest payments
      end
  end.

(** The pair recorded for a match. *)
Definition pair_of (m : Order.t * Payment.t) : MatchedPair.t :=
  MatchedPair.mk (Order.id m.1) (Payment.id m.2)
                 (Order.merchant_order_id m.1) (float (Order.amount m.1)).

(** The orders, and the payments, of a matching. *)
Definition matched_orders (ms : list (Order.t * Payment.t)) : list Order.t := fst <$> ms.

Definition matched_payments (ms : list (Order.t * Payment.t)) : list Payment.t := snd <$> ms.

(** The first-fit matching of the working set of [db]; by
    [reconcile_transactions_cases] below, the matching a run computes. *)
Definition matching (db : Store) : list (Order.t * Payment.t) :=
  spec_first_fit ∅ (query_completed_orders db) (query_completed_payments db).

(** The result a run on [db] returns, in terms of its matching. *)
Definition run_result (db : Store) : ReconciliationResult.t :=
  ReconciliationResult.mk
    (length (matching db)) (pair_of <$> matching db)
    (Order.merchant_order_id <$>
       filter (λ o, Order.id o ∉ Order.id <$> matched_orders (matching db))
              (query_completed_orders db))
    (Payment.merchant_order_id <$>
       filter (λ p, Payment.id p ∉ Payment.id <$> matched_payments (matching db))
              (query_completed_payments db)).


(** The store once the commit of a run on [db] has gone through. *)
Definition committed (db : Store) : Store :=
  commit (session (matching_loop (query_completed_orders db) (query_completed_payments db))) db.

(** Total of a list of amounts. *)
Definition sum_amounts (amounts : list Decimal) : Decimal := foldr Z.add 0 amounts.

(** The Conflict case of the error taxonomy: what [create_merchant] answers
    to a duplicate, [status.HTTP_409_CONFLICT]. *)
Definition is_conflict (e : HTTPException.t) : Prop :=
  HTTPException.status_code e = HTTP_409_CONFLICT.

(** A store in which one order and one payment can be matched; the dates are
    the ordinals of 2025-01-29, 2025-01-30 and 2025-02-05. *)
Definition order_001 : Order.t :=
  Order.mk 1 (Some 1) "ORDER_001" 10000 "USD" None (Some 739280) OrderStatus.completed.

Definition payment_001 (amount : Decimal) (on : date) : Payment.t :=
  Payment.mk 1 (Some 1) "ORDER_001" amount "USD" None (Some on) PaymentStatus.completed.

Definition scenario (amount : Decimal) (on : date) : Store :=
  mkStore [Merchant.mk 1 "M1" "Merchant one"] [order_001] [payment_001 amount on].

(** A store with records of every status; of its three completed orders two
    find their payment, the third is paid nine days late. *)
Definition busy_store : Store :=
  mkStore
    [Merchant.mk 1 "M1" "Merchant one"; Merchant.mk 2 "M2" "Merchant two"]
    [Order.mk 1 (Some 1) "ORDER_001" 10000 "USD" None (Some 739280) OrderStatus.completed;
     Order.mk 2 (Some 1) "ORDER_002" 2550 "USD" None (Some 739280) OrderStatus.pending;
     Order.mk 3 (Some 2) "ORDER_003" 700 "EUR" None None OrderStatus.completed;
     Order.mk 4 (Some 2) "ORDER_004" 900 "EUR" None (Some 739281) OrderStatus.completed;
     Order.mk 5 (Some 1) "ORDER_005" 1200 "USD" None (Some 739200) OrderStatus.reconciled]
    [Payment.mk 1 (Some 2) "ORDER_004" 900 "EUR" None (Some 739290) PaymentStatus.completed;
     Payment.mk 2 (Some 2) "ORDER_003" 700 "EUR" None (Some 739300) PaymentStatus.completed;
     Payment.mk 3 (Some 1) "ORDER_001" 10000 "USD" None (Some 739283) PaymentStatus.completed;
     Payment.mk 4 (Some 1) "ORDER_002" 2550 "USD" None (Some 739280) PaymentStatus.failed;
     Payment.mk 5 (Some 1) "ORDER_005" 1200 "USD" None (Some 739201) PaymentStatus.reconciled].

(** ** The read endpoints *)

(** [query.offset(skip).limit(limit).all()]: the rows after the first [skip],
    at most [limit] of them. MySQL refuses a statement with a negative OFFSET
    or LIMIT, and the endpoints do not catch the error: there is no page then. *)
Definition offset_limit {A} (skip limit : Z) (rows : list A) : option (list A) :=
  if decide (0 ≤ skip ∧ 0 ≤ limit)
  then Some (take (Z.to_nat limit) (drop (Z.to_nat skip) rows))
  else None.

Definition get_merchants (skip limit : Z) (db : Store) : option (list Merchant.t) :=
  offset_limit skip limit (merchants db).

Definition get_merchant (merchant_id : string) (db : Store) : HTTPException.t + Merchant.t :=
  match find_merchant merchant_id db with
  | None =>
      inl (HTTPException.mk HTTP_404_NOT_FOUND
             ("Merchant with id " +:+ merchant_id +:+ " not found"))
  | Some merchant => inr merchant
  end.

(** [if status: query = query.filter(Order.status == status)]: every member of
    the enumeration is a non-empty string, hence true. *)
Definition get_orders (skip limit : Z) (status : option OrderStatus.t) (db : Store)
    : option (list Order.t) :=
  let query := orders db in
  let query :=
    match status with
    | Some status => filter (λ o, Order.status o = status) query
    | None => query
    end in
  offset_limit skip limit query.

Definition get_order (merchant_order_id : string) (db : Store) : HTTPException.t + Order.t :=
  match head (filter (λ o, Order.merchant_order_id o = merchant_order_id) (orders db)) with
  | None =>
      inl (HTTPException.mk HTTP_404_NOT_FOUND
             ("Order with merchant_order_id '" +:+ merchant_order_id +:+ "' not found"))
  | Some order => inr order
  end.

Definition get_payments (skip limit : Z) (status : option PaymentStatus.t) (db : Store)
    : option (list Payment.t) :=
  let query := payments db in
  let query :=
    match status with
    | Some status => filter (λ p, Payment.status p = status) query
    | None => query
    end in
  offset_limit skip limit query.

Definition get_payment (merchant_order_id : string) (db : Store) : HTTPException.t + Payment.t :=
  match head (filter (λ p, Payment.merchant_order_id p = merchant_order_id) (payments db)) with
  | None =>
      inl (HTTPException.mk HTTP_404_NOT_FOUND
             ("Payment with merchant_order_id '" +:+ merchant_order_id +:+ "' not found"))
  | Some payment => inr payment
  end.

(** ** The application: requests that write *)

Section App.

Variable duplicate_key_message : string → string → string.

(** The four POST routes of [app]; the GET routes write nothing. *)
Inductive Request :=
  | POST_merchants (merchant : MerchantCreate.t)
  | POST_orders (order : OrderCreate.t)
  | POST_payments (payment : PaymentCreate.t)
  | POST_reconciliation (fault : option DbCall).

(** The store a request leaves behind. *)
Definition handle (db : Store) (request : Request) : Store :=
  match request with
  | POST_merchants merchant => fst (create_merchant merchant db)
  | POST_orders order => fst (create_order duplicate_key_message order db)
  | POST_payments payment => fst (create_payment duplicate_key_message payment db)
  | POST_reconciliation fault => fst (reconcile_transactions fault db)
  end.

Definition serve (requests : list Request) (db : Store) : Store :=
  foldl handle db requests.

End App.

(** The database as [scripts/init_db.py] creates it: three tables, no row. *)
Definition empty_store : Store := mkStore [] [] [].

(** The foreign keys of orders and payments point to stored merchants, and
    every order and payment has its date. *)
Record referential_integrity (db : Store) : Prop := mkIntegrity {
  orders_fk : ∀ o, o ∈ orders db →
    ∃ m, m ∈ merchants db ∧ Order.merchant_id o = Some (Merchant.id m);
  payments_fk : ∀ p, p ∈ payments db →
    ∃ m, m ∈ merchants db ∧ Payment.merchant_id p = Some (Merchant.id m);
  orders_dated : ∀ o, o ∈ orders db → is_Some (Order.order_date o);
  payments_dated : ∀ p, p ∈ payments db → is_Some (Payment.payment_date p) }.


(** Rules 2 to 4 of the matching, for an order and a payment taken alone. *)
Definition rules_hold (o : Order.t) (p : Payment.t) : Prop :=
  Payment.merchant_order_id p = Order.merchant_order_id o ∧
  Payment.merchant_id p = Order.merchant_id o ∧
  Payment.amount p = Order.amount o ∧
  ∀ order_date payment_date,
    Order.order_date o = Some order_date →
    Payment.payment_date p = Some payment_date →
    Z.abs (payment_date - order_date) ≤ 3.

(** The store [busy_store] read in the opposite order. *)
Definition busy_store_reversed : Store :=
  mkStore (reverse (merchants busy_store)) (reverse (orders busy_store))
          (reverse (payments busy_store)).

(** * Properties *)

(** ** Worked scenarios of the specification *)

Example scenario_match :
  reconcile_transactions None (scenario 10000 739281) =
    (mkStore [Merchant.mk 1 "M1" "Merchant one"]
             [Order.set_status order_001 OrderStatus.reconciled]
             [Payment.set_status (payment_001 10000 739281) PaymentStatus.reconciled],
     inr (ReconciliationResult.mk 1%nat [MatchedPair.mk 1 1 "ORDER_001" (Float 10000)] [] [])).
Proof. vm_compute. reflexivity. Qed.

Example scenario_seven_days_late :
  reconcile_transactions None (scenario 10000 739287) =
    (scenario 10000 739287,
     inr (ReconciliationResult.mk 0%nat [] ["ORDER_001"] ["ORDER_001"])) ∧
  get_discrepancies (scenario 10000 739287) =
    DiscrepanciesResponse.mk [order_001] [payment_001 10000 739287].
Proof. split; vm_compute; reflexivity. Qed.

Example scenario_amount_differs :
  reconcile_transactions None (scenario 9999 739280) =
    (scenario 9999 739280,
     inr (ReconciliationResult.mk 0%nat [] ["ORDER_001"] ["ORDER_001"])).
Proof. vm_compute. reflexivity. Qed.

Example busy_store_run :
  snd (reconcile_transactions None busy_store) =
    inr (ReconciliationResult.mk 2%nat
           [MatchedPair.mk 1 3 "ORDER_001" (Float 10000);
            MatchedPair.mk 3 2 "ORDER_003" (Float 700)]
           ["ORDER_004"] ["ORDER_004"]).
Proof. vm_compute. reflexivity. Qed.


(** ** The inner loop is a search for the first satisfying payment *)

Lemma scan_payments_find order consumed payments :
  scan_payments order consumed payments =
    snd <$> list_find (spec_satisfies consumed order) payments.
Proof.
  induction payments as [|p ps IH]; [done|].
  cbn [scan_payments list_find]. rewrite IH. clear IH.
  assert (Hskip : ¬ spec_satisfies consumed order p →
            snd <$> list_find (spec_satisfies consumed order) ps =
            snd <$> (if decide (spec_satisfies consumed order p) then Some (0%nat, p)
                     else prod_map S id <$> list_find (spec_satisfies consumed order) ps)).
  { intros Hn. rewrite decide_False by done.
    by destruct (list_find _ ps) as [[??]|]. }
  destruct (decide (Payment.id p ∈ consumed)) as [Hc|Hc]; [apply Hskip; intros (?&_); done|].
  destruct (bool_decide (Payment.merchant_order_id p ≠ _)) eqn:H1; cbn [orb].
  { apply bool_decide_eq_true in H1. apply Hskip. intros (_&?&_); done. }
  apply bool_decide_eq_false in H1. apply dec_stable in H1.
  destruct (bool_decide (Payment.merchant_id p ≠ _)) eqn:H2.
  { apply bool_decide_eq_true in H2. apply Hskip. intros (_&_&?&_); done. }
  apply bool_decide_eq_false in H2. apply dec_stable in H2.
  destruct (bool_decide (Payment.amount p ≠ _)) eqn:H3.
  { apply bool_decide_eq_true in H3. apply Hskip. intros (_&_&_&?&_); done. }
  apply bool_decide_eq_false in H3. apply dec_stable in H3.
  destruct (Order.order_date order) as [od|] eqn:Hod,
           (Payment.payment_date p) as [pd|] eqn:Hpd.
  - destruct (Z.ltb_spec 3 (Z.abs (pd - od))) as [Hlt|Hle].
    + apply Hskip. intros (_&_&_&_&Hw). unfold spec_within_window in Hw.
      rewrite Hod, Hpd in Hw. lia.
    + rewrite decide_True; [done|]. unfold spec_satisfies, spec_within_window.
      by rewrite Hod, Hpd.
  - rewrite decide_True; [done|]. unfold spec_satisfies, spec_within_window. by rewrite Hod, Hpd.
  - rewrite decide_True; [done|]. unfold spec_satisfies, spec_within_window. by rewrite Hod.
  - rewrite decide_True; [done|]. unfold spec_satisfies, spec_within_window. by rewrite Hod.
Qed.

(** ** The outer loop computes the first-fit matching *)

Lemma foldl_match_order payments orders s :
  let ms := spec_first_fit (matched_payment_ids s) orders payments in
  foldl (match_order payments) s orders =
    mkMatchState
      (matched_pairs s ++ (pair_of <$> ms))
      (list_to_set (Order.id <$> matched_orders ms) ∪ matched_order_ids s)
      (list_to_set (Payment.id <$> matched_payments ms) ∪ matched_payment_ids s)
      (mkSession
         (dirty_orders (session s) ++
            ((λ o, Order.set_status o OrderStatus.reconciled) <$> matched_orders ms))
         (dirty_payments (session s) ++
            ((λ p, Payment.set_status p PaymentStatus.reconciled) <$> matched_payments ms))).
Proof.
  revert s. induction orders as [|o os IH]; intros s; cbn [foldl spec_first_fit].
  - destruct s as [? ? ? []]; cbn. rewrite !app_nil_r.
    by rewrite !(left_id_L ∅ (∪)).
  - unfold match_order at 2. rewrite scan_payments_find.
    destruct (list_find _ payments) as [[i p]|]; cbn [fmap option_fmap option_map snd].
    + rewrite IH. cbn. rewrite <- !app_assoc.
      by rewrite !(assoc_L (∪)), !(comm_L (∪) (list_to_set _) {[ _ ]}).
    + apply IH.
Qed.

Lemma matching_loop_first_fit orders payments :
  let ms := spec_first_fit ∅ orders payments in
  matching_loop orders payments =
    mkMatchState
      (pair_of <$> ms)
      (list_to_set (Order.id <$> matched_orders ms))
      (list_to_set (Payment.id <$> matched_payments ms))
      (mkSession
         ((λ o, Order.set_status o OrderStatus.reconciled) <$> matched_orders ms)
         ((λ p, Payment.set_status p PaymentStatus.reconciled) <$> matched_payments ms)).
Proof.
  unfold matching_loop. rewrite foldl_match_order. cbn.
  by rewrite !(right_id_L ∅ (∪)).
Qed.

(** ** What a first-fit matching contains *)

(** The rules without the bookkeeping of consumed payments. *)
Lemma satisfies_consumed consumed o p :
  spec_satisfies consumed o p ↔ (Payment.id p ∉ consumed) ∧ spec_satisfies ∅ o p.
Proof.
  unfold spec_satisfies. split.
  - intros (? & ? & ? & ? & ?). split_and!; try done; apply not_elem_of_empty.
  - intros (? & _ & ? & ? & ? & ?). by split_and!.
Qed.

Lemma first_fit_elem consumed orders payments o p :
  (o, p) ∈ spec_first_fit consumed orders payments →
  o ∈ orders ∧ p ∈ payments ∧ (Payment.id p ∉ consumed) ∧ spec_satisfies ∅ o p.
Proof.
  revert consumed. induction orders as [|o' os IH]; intros consumed; cbn [spec_first_fit].
  - by intros ?%elem_of_nil.
  - destruct (list_find _ payments) as [[i p']|] eqn:Hf.
    + apply list_find_Some in Hf as (Hi & Hs & _).
      apply satisfies_consumed in Hs as [Hc Hs].
      intros [[= -> ->]|Hin]%elem_of_cons.
      * split_and!; [by left|by eapply list_elem_of_lookup_2|done..].
      * apply IH in Hin as (? & ? & [_ ?]%not_elem_of_union & ?).
        split_and!; [by right|done..].
    + intros Hin. apply IH in Hin as (? & ? & ? & ?).
      split_and!; [by right|done..].
Qed.

Lemma first_fit_payment_fresh consumed orders payments p :
  p ∈ matched_payments (spec_first_fit consumed orders payments) →
  Payment.id p ∉ consumed.
Proof.
  intros ([o p'] & -> & Hin)%list_elem_of_fmap.
  by apply first_fit_elem in Hin as (_ & _ & ? & _).
Qed.

Lemma first_fit_orders_sublist consumed orders payments :
  matched_orders (spec_first_fit consumed orders payments) `sublist_of` orders.
Proof.
  revert consumed. induction orders as [|o os IH]; intros consumed; cbn [spec_first_fit].
  - constructor.
  - destruct (list_find _ payments) as [[i p]|].
    + cbn. by apply sublist_skip.
    + by apply sublist_cons.
Qed.

Lemma first_fit_payments_NoDup consumed orders payments :
  NoDup (Payment.id <$> matched_payments (spec_first_fit consumed orders payments)).
Proof.
  revert consumed. induction orders as [|o os IH]; intros consumed; cbn [spec_first_fit].
  - constructor.
  - destruct (list_find _ payments) as [[i p]|]; [|done].
    cbn. apply NoDup_cons. split; [|apply IH].
    intros (p' & Hid & Hin)%list_elem_of_fmap.
    apply first_fit_payment_fresh in Hin.
    apply Hin, elem_of_union_l, elem_of_singleton. done.
Qed.

(** An order left without a match was refused by every payment that is
    still free at the end of the run. *)
Lemma first_fit_unmatched consumed orders payments o p :
  let ms := spec_first_fit consumed orders payments in
  o ∈ orders → Order.id o ∉ Order.id <$> matched_orders ms →
  p ∈ payments → Payment.id p ∉ consumed →
  Payment.id p ∉ Payment.id <$> matched_payments ms →
  ¬ spec_satisfies ∅ o p.
Proof.
  cbn. revert consumed. induction orders as [|o' os IH]; intros consumed; cbn [spec_first_fit].
  - by intros ?%elem_of_nil.
  - destruct (list_find _ payments) as [[i p']|] eqn:Hf; cbn.
    + intros Ho [Hne Hno]%not_elem_of_cons Hp Hc [Hnp Hnps]%not_elem_of_cons.
      apply elem_of_cons in Ho as [->|Ho]; [done|].
      apply (IH ({[Payment.id p']} ∪ consumed)); try done.
      intros [?%elem_of_singleton|?]%elem_of_union; done.
    + intros Ho Hno Hp Hc Hnp.
      apply elem_of_cons in Ho as [->|Ho]; [|by eapply IH].
      intros Hs. eapply list_find_None in Hf.
      eapply Forall_forall in Hf; [|exact Hp].
      apply Hf, satisfies_consumed. done.
Qed.

Lemma first_fit_none consumed orders payments :
  (∀ o p, o ∈ orders → p ∈ payments → ¬ spec_satisfies ∅ o p) →
  spec_first_fit consumed orders payments = [].
Proof.
  revert consumed. induction orders as [|o os IH]; intros consumed Hno; [done|].
  cbn [spec_first_fit].
  destruct (list_find _ payments) as [[i p]|] eqn:Hf.
  - apply list_find_Some in Hf as (Hi & Hs & _).
    apply satisfies_consumed in Hs as [_ Hs].
    exfalso. eapply Hno; [by left|by eapply list_elem_of_lookup_2|done].
  - apply IH. intros o' p' ? ?. apply Hno; [by right|done].
Qed.

(** ** The commit *)

Lemma NoDup_fmap_eq {A B} (f : A → B) (l : list A) x y :
  NoDup (f <$> l) → x ∈ l → y ∈ l → f x = f y → x = y.
Proof.
  induction l as [|a l IH]; [by intros _ ?%elem_of_nil|].
  rewrite fmap_cons, NoDup_cons. intros [Ha Hl] Hx Hy Hxy.
  apply elem_of_cons in Hx as [->|Hx]; apply elem_of_cons in Hy as [->|Hy].
  - done.
  - exfalso. apply Ha. rewrite Hxy. by apply list_elem_of_fmap_2.
  - exfalso. apply Ha. rewrite <- Hxy. by apply list_elem_of_fmap_2.
  - by apply IH.
Qed.

Lemma flush_orders_map dirty table :
  Forall (λ obj, Order.status obj = OrderStatus.reconciled) dirty →
  flush_orders dirty table =
    (λ row, if decide (Order.id row ∈ Order.id <$> dirty)
            then Order.set_status row OrderStatus.reconciled else row) <$> table.
Proof.
  unfold flush_orders. revert table.
  induction dirty as [|obj dirty IH]; intros table Hd; cbn [foldl].
  - rewrite <- (list_fmap_id table) at 1. apply list_fmap_ext. intros _ row _.
    by rewrite decide_False by apply not_elem_of_nil.
  - apply Forall_cons in Hd as [Hobj Hd]. rewrite IH by done.
    rewrite <- list_fmap_compose. apply list_fmap_ext. intros _ row _. cbn.
    unfold update_order. rewrite Hobj.
    destruct (decide (Order.id row = Order.id obj)) as [Heq|Hne].
    + rewrite (decide_True (P := _ ∈ _ :: _)) by (rewrite Heq; by left).
      by destruct (decide (_ ∈ _)).
    + destruct (decide (Order.id row ∈ Order.id <$> dirty)) as [Hin|Hin].
      * by rewrite decide_True by by right.
      * rewrite decide_False; [done|]. by intros [?|?]%elem_of_cons.
Qed.

Lemma flush_payments_map dirty table :
  Forall (λ obj, Payment.status obj = PaymentStatus.reconciled) dirty →
  flush_payments dirty table =
    (λ row, if decide (Payment.id row ∈ Payment.id <$> dirty)
            then Payment.set_status row PaymentStatus.reconciled else row) <$> table.
Proof.
  unfold flush_payments. revert table.
  induction dirty as [|obj dirty IH]; intros table Hd; cbn [foldl].
  - rewrite <- (list_fmap_id table) at 1. apply list_fmap_ext. intros _ row _.
    by rewrite decide_False by apply not_elem_of_nil.
  - apply Forall_cons in Hd as [Hobj Hd]. rewrite IH by done.
    rewrite <- list_fmap_compose. apply list_fmap_ext. intros _ row _. cbn.
    unfold update_payment. rewrite Hobj.
    destruct (decide (Payment.id row = Payment.id obj)) as [Heq|Hne].
    + rewrite (decide_True (P := _ ∈ _ :: _)) by (rewrite Heq; by left).
      by destruct (decide (_ ∈ _)).
    + destruct (decide (Payment.id row ∈ Payment.id <$> dirty)) as [Hin|Hin].
      * by rewrite decide_True by by right.
      * rewrite decide_False; [done|]. by intros [?|?]%elem_of_cons.
Qed.

(** ** The shape of a run *)

Lemma reconcile_transactions_cases fault db :
  reconcile_transactions fault db =
    match fault with
    | Some QueryOrders | Some QueryPayments | Some Commit => reconciliation_failed db
    | Some Refresh =>
        if reads_after_commit (query_completed_orders db) (query_completed_payments db)
        then reconciliation_failed (committed db)
        else (committed db, inr (run_result db))
    | None => (committed db, inr (run_result db))
    end.
Proof.
  assert (matching_loop_result :
    (let s := matching_loop (query_completed_orders db) (query_completed_payments db) in
     ReconciliationResult.mk
       (length (matched_pairs s)) (matched_pairs s)
       (Order.merchant_order_id <$>
          filter (λ o, Order.id o ∉ matched_order_ids s) (query_completed_orders db))
       (Payment.merchant_order_id <$>
          filter (λ p, Payment.id p ∉ matched_payment_ids s) (query_completed_payments db)))
    = run_result db).
  { unfold run_result, matching. cbn zeta. rewrite matching_loop_first_fit. cbn.
    rewrite length_fmap.
    f_equal; f_equal; apply list_filter_iff; intros x; by rewrite elem_of_list_to_set. }
  cbn zeta in matching_loop_result.
  unfold reconcile_transactions, committed.
  destruct fault as [[]|]; try done; cbn -[matching_loop reads_after_commit commit].
  - destruct (reads_after_commit _ _); [done|]. by rewrite matching_loop_result.
  - by rewrite matching_loop_result.
Qed.

Lemma reconcile_transactions_inr fault db db' r :
  reconcile_transactions fault db = (db', inr r) →
  r = run_result db ∧ db' = committed db ∧
  ReconciliationResult.matched_pairs r = pair_of <$> matching db.
Proof.
  rewrite reconcile_transactions_cases.
  destruct fault as [[]|]; try done;
    try destruct (reads_after_commit _ _); try done; by intros [= <- <-].
Qed.

(** With an empty working set nothing is read after the commit: a reload that
    would fail is never attempted, and the run returns its empty result. *)
Lemma reconcile_transactions_reads_nothing db :
  query_completed_orders db = [] → query_completed_payments db = [] →
  reconcile_transactions (Some Refresh) db =
    (db, inr (ReconciliationResult.mk 0 [] [] [])).
Proof.
  intros Ho Hp. rewrite reconcile_transactions_cases.
  unfold run_result, committed, matching. rewrite Ho, Hp. cbn. by destruct db.
Qed.

Lemma committed_orders db :
  orders (committed db) =
    (λ row, if decide (Order.id row ∈ Order.id <$> matched_orders (matching db))
            then Order.set_status row OrderStatus.reconciled else row) <$> orders db.
Proof.
  unfold committed, commit, matching. rewrite matching_loop_first_fit.
  cbn -[flush_orders].
  rewrite flush_orders_map by (apply Forall_fmap, Forall_true; done).
  apply list_fmap_ext. intros _ row _.
  by rewrite <- list_fmap_compose.
Qed.

Lemma committed_payments db :
  payments (committed db) =
    (λ row, if decide (Payment.id row ∈ Payment.id <$> matched_payments (matching db))
            then Payment.set_status row PaymentStatus.reconciled else row) <$> payments db.
Proof.
  unfold committed, commit, matching. rewrite matching_loop_first_fit.
  cbn -[flush_payments].
  rewrite flush_payments_map by (apply Forall_fmap, Forall_true; done).
  apply list_fmap_ext. intros _ row _.
  by rewrite <- list_fmap_compose.
Qed.

Lemma committed_merchants db : merchants (committed db) = merchants db.
Proof. done. Qed.

(** ** Rule conformance and one-to-one matching *)

Lemma matching_elem db o p :
  (o, p) ∈ matching db →
  o ∈ query_completed_orders db ∧ p ∈ query_completed_payments db ∧ spec_satisfies ∅ o p.
Proof. intros (? & ? & _ & ?)%first_fit_elem. done. Qed.

Lemma matched_orders_sublist db :
  matched_orders (matching db) `sublist_of` orders db.
Proof.
  etrans; [apply first_fit_orders_sublist|]. apply sublist_filter.
Qed.

(** C1: every pair a run records as matched comes from a completed order and a
    completed payment of the working set that have equal amounts, equal
    merchant references and the same merchant order identifier, and whose
    dates, when both are present, are at most three days apart. *)
Theorem matched_pairs_conform fault db db' r mp :
  reconcile_transactions fault db = (db', inr r) →
  mp ∈ ReconciliationResult.matched_pairs r →
  ∃ o p,
    o ∈ query_completed_orders db ∧ p ∈ query_completed_payments db ∧
    MatchedPair.order_id mp = Order.id o ∧
    MatchedPair.payment_id mp = Payment.id p ∧
    MatchedPair.merchant_order_id mp = Order.merchant_order_id o ∧
    MatchedPair.amount mp = float (Order.amount o) ∧
    Payment.amount p = Order.amount o ∧
    Payment.merchant_id p = Order.merchant_id o ∧
    Payment.merchant_order_id p = Order.merchant_order_id o ∧
    (∀ order_date payment_date,
       Order.order_date o = Some order_date →
       Payment.payment_date p = Some payment_date →
       Z.abs (payment_date - order_date) ≤ 3).
Proof.
  intros (_ & _ & ->)%reconcile_transactions_inr
         ([o p] & -> & Hin)%list_elem_of_fmap.
  apply matching_elem in Hin as (Ho & Hp & _ & Hid & Hm & Ha & Hw).
  exists o, p. split_and!; try done.
  intros od pd Hod Hpd. unfold spec_within_window in Hw. by rewrite Hod, Hpd in Hw.
Qed.

Lemma matched_pairs_conform_witness :
  ∃ o p,
    o ∈ query_completed_orders (scenario 10000 739281) ∧
    p ∈ query_completed_payments (scenario 10000 739281) ∧
    1 = Order.id o ∧ 1 = Payment.id p ∧
    "ORDER_001" = Order.merchant_order_id o ∧
    Float 10000 = float (Order.amount o) ∧
    Payment.amount p = Order.amount o ∧
    Payment.merchant_id p = Order.merchant_id o ∧
    Payment.merchant_order_id p = Order.merchant_order_id o ∧
    (∀ order_date payment_date,
       Order.order_date o = Some order_date →
       Payment.payment_date p = Some payment_date →
       Z.abs (payment_date - order_date) ≤ 3).
Proof.
  eapply (matched_pairs_conform None (scenario 10000 739281) _ _
            (MatchedPair.mk 1 1 "ORDER_001" (Float 10000))).
  - vm_compute. reflexivity.
  - apply list_elem_of_here.
Defined.

(** With the primary keys of the schema, the rows a pair names by their keys
    are the order and the payment that were matched. *)
Corollary matched_pair_rows fault db db' r mp o p :
  schema_constraints db →
  reconcile_transactions fault db = (db', inr r) →
  mp ∈ ReconciliationResult.matched_pairs r →
  o ∈ orders db → Order.id o = MatchedPair.order_id mp →
  p ∈ payments db → Payment.id p = MatchedPair.payment_id mp →
  Order.status o = OrderStatus.completed ∧
  Payment.status p = PaymentStatus.completed ∧
  spec_satisfies ∅ o p.
Proof.
  intros Hdb (_ & _ & ->)%reconcile_transactions_inr
         ([o' p'] & -> & Hin)%list_elem_of_fmap Ho Hoid Hp Hpid.
  apply matching_elem in Hin as (Ho' & Hp' & Hs).
  apply list_elem_of_filter in Ho' as [Hso Ho'], Hp' as [Hsp Hp'].
  assert (o = o') as -> by (eapply NoDup_fmap_eq; [apply (orders_pk db Hdb)|done..]).
  assert (p = p') as -> by (eapply NoDup_fmap_eq; [apply (payments_pk db Hdb)|done..]).
  done.
Qed.

Lemma matched_pair_rows_witness :
  Order.status order_001 = OrderStatus.completed ∧
  Payment.status (payment_001 10000 739281) = PaymentStatus.completed ∧
  spec_satisfies ∅ order_001 (payment_001 10000 739281).
Proof.
  apply (matched_pair_rows None (scenario 10000 739281) (committed (scenario 10000 739281))
           (ReconciliationResult.mk 1%nat [MatchedPair.mk 1 1 "ORDER_001" (Float 10000)] [] [])
           (MatchedPair.mk 1 1 "ORDER_001" (Float 10000))).
  - split; apply (bool_decide_unpack _); vm_compute; exact I.
  - vm_compute. reflexivity.
  - apply list_elem_of_here.
  - apply list_elem_of_here.
  - reflexivity.
  - apply list_elem_of_here.
  - reflexivity.
Defined.

Lemma pair_of_order_ids ms :
  MatchedPair.order_id <$> (pair_of <$> ms) = Order.id <$> matched_orders ms.
Proof. unfold matched_orders. by rewrite <- !list_fmap_compose. Qed.

Lemma pair_of_payment_ids ms :
  MatchedPair.payment_id <$> (pair_of <$> ms) = Payment.id <$> matched_payments ms.
Proof. unfold matched_payments. by rewrite <- !list_fmap_compose. Qed.

Lemma pair_of_merchant_order_ids ms :
  MatchedPair.merchant_order_id <$> (pair_of <$> ms) =
    Order.merchant_order_id <$> matched_orders ms.
Proof. unfold matched_orders. by rewrite <- !list_fmap_compose. Qed.

(** C2: in the matched pairs of a run no payment key occurs twice, whatever
    the tables hold: a payment consumed by one match is not consumed again.
    No order key occurs twice when the order keys of the table are distinct,
    and no merchant order identifier occurs twice when those of the table are
    distinct: each order is visited once. *)
Theorem matching_one_to_one fault db db' r :
  reconcile_transactions fault db = (db', inr r) →
  NoDup (MatchedPair.payment_id <$> ReconciliationResult.matched_pairs r) ∧
  (NoDup (Order.id <$> orders db) →
   NoDup (MatchedPair.order_id <$> ReconciliationResult.matched_pairs r)) ∧
  (NoDup (Order.merchant_order_id <$> orders db) →
   NoDup (MatchedPair.merchant_order_id <$> ReconciliationResult.matched_pairs r)).
Proof.
  intros (_ & _ & ->)%reconcile_transactions_inr.
  rewrite pair_of_payment_ids, pair_of_order_ids, pair_of_merchant_order_ids.
  split_and!.
  - apply first_fit_payments_NoDup.
  - intros Hpk. eapply sublist_NoDup; [apply Hpk|].
    apply fmap_sublist, matched_orders_sublist.
  - intros Hunique. eapply sublist_NoDup; [apply Hunique|].
    apply fmap_sublist, matched_orders_sublist.
Qed.

Lemma matching_one_to_one_witness :
  NoDup [3; 2] ∧ NoDup [1; 3] ∧ NoDup ["ORDER_001"; "ORDER_003"].
Proof.
  pose proof (matching_one_to_one None busy_store (committed busy_store)
                (ReconciliationResult.mk 2%nat
                   [MatchedPair.mk 1 3 "ORDER_001" (Float 10000);
                    MatchedPair.mk 3 2 "ORDER_003" (Float 700)]
                   ["ORDER_004"] ["ORDER_004"]) eq_refl) as (Hp & Ho & Hid).
  split; [exact Hp|]. split.
  - apply Ho, (bool_decide_unpack _). vm_compute. exact I.
  - apply Hid, (bool_decide_unpack _). vm_compute. exact I.
Defined.

(** ** First fit *)

(** One step of [spec_first_fit], spelled out on the payments' read order: the
    payment taken is the first one that spec_satisfies the rules, whatever comes
    after it. *)
Lemma first_fit_takes_first consumed o rest before p after :
  Forall (λ q, ¬ spec_satisfies consumed o q) before →
  spec_satisfies consumed o p →
  spec_first_fit consumed (o :: rest) (before ++ p :: after) =
    (o, p) :: spec_first_fit ({[Payment.id p]} ∪ consumed) rest (before ++ p :: after).
Proof.
  intros Hbefore Hp. cbn [spec_first_fit].
  assert (list_find (spec_satisfies consumed o) (before ++ p :: after)
          = Some (length before, p)) as ->; [|done].
  apply list_find_Some. split_and!; [|done|].
  - by rewrite list_lookup_middle.
  - intros j q Hq Hj. rewrite lookup_app_l in Hq by done.
    eapply Forall_forall in Hbefore; [done|]. by eapply list_elem_of_lookup_2.
Qed.

Lemma first_fit_skips consumed o rest payments :
  Forall (λ q, ¬ spec_satisfies consumed o q) payments →
  spec_first_fit consumed (o :: rest) payments = spec_first_fit consumed rest payments.
Proof.
  intros Hno. cbn [spec_first_fit].
  by rewrite (proj2 (list_find_None _ _) Hno).
Qed.

(** C4: the matched pairs of a run are those of the first-fit matching of the
    specification: orders in read order, each taking the first payment in read
    order that is not yet consumed and spec_satisfies the four rules, one pair per
    order, later candidates never looked at. *)
Theorem reconcile_is_first_fit fault db db' r :
  reconcile_transactions fault db = (db', inr r) →
  ReconciliationResult.matched_pairs r =
    pair_of <$> spec_first_fit ∅ (query_completed_orders db) (query_completed_payments db).
Proof.
  by intros (_ & _ & ->)%reconcile_transactions_inr.
Qed.

Lemma reconcile_is_first_fit_witness :
  [MatchedPair.mk 1 3 "ORDER_001" (Float 10000); MatchedPair.mk 3 2 "ORDER_003" (Float 700)] =
    pair_of <$> spec_first_fit ∅ (query_completed_orders busy_store)
                            (query_completed_payments busy_store).
Proof.
  apply (reconcile_is_first_fit None busy_store (committed busy_store)
           (ReconciliationResult.mk 2%nat
              [MatchedPair.mk 1 3 "ORDER_001" (Float 10000);
               MatchedPair.mk 3 2 "ORDER_003" (Float 700)]
              ["ORDER_004"] ["ORDER_004"])).
  vm_compute. reflexivity.
Defined.

(** ** The result partitions the working set *)

Lemma length_filter_not_in {A} (f : A → Z) (l : list A) (X : gset Z) :
  NoDup (f <$> l) → X ⊆ list_to_set (f <$> l) →
  (length (filter (λ x, f x ∉ X) l) + size X = length l)%nat.
Proof.
  revert X. induction l as [|a l IH]; intros X Hnd HX.
  - assert (X = ∅) as ->; [|by rewrite size_empty].
    apply leibniz_equiv, elem_of_equiv_empty. intros x Hx%HX.
    by apply not_elem_of_empty in Hx.
  - rewrite fmap_cons in Hnd, HX. apply NoDup_cons in Hnd as [Ha Hnd].
    rewrite filter_cons. destruct (decide (f a ∉ X)) as [Hin|Hin].
    + cbn. rewrite IH; [done..|].
      intros y Hy. pose proof (HX y Hy) as Hy'. rewrite list_to_set_cons in Hy'.
      apply elem_of_union in Hy' as [->%elem_of_singleton|?]; done.
    + apply dec_stable in Hin.
      assert (filter (λ x, f x ∉ X) l = filter (λ x, f x ∉ X ∖ {[f a]}) l) as ->.
      { clear IH HX. induction l as [|b l IHl]; [done|].
        rewrite fmap_cons in Ha, Hnd.
        apply not_elem_of_cons in Ha as [Hne Ha].
        apply NoDup_cons in Hnd as [_ Hnd].
        rewrite !filter_cons, IHl by done.
        apply decide_ext. split; intros Hn Hi; apply Hn.
        - by apply elem_of_difference in Hi as [? _].
        - apply elem_of_difference. split; [done|]. by intros ?%elem_of_singleton. }
      assert (size X = S (size (X ∖ {[f a]}))) as ->.
      { rewrite size_difference by (by apply singleton_subseteq_l).
        rewrite size_singleton.
        assert (size X ≠ 0%nat); [|lia].
        intros ?%size_empty_inv. set_solver. }
      cbn. rewrite Nat.add_succ_r, IH; [done..|].
      intros y [Hy Hya]%elem_of_difference.
      apply HX in Hy. rewrite list_to_set_cons in Hy.
      by apply elem_of_union in Hy as [?|?].
Qed.

Lemma length_unselected {A} (f : A → Z) (l sel : list A) :
  NoDup (f <$> l) → NoDup (f <$> sel) → sel ⊆ l →
  (length (filter (λ x, f x ∉ f <$> sel) l) + length sel = length l)%nat.
Proof.
  intros Hl Hsel Hsub.
  rewrite <- (length_filter_not_in f l (list_to_set (f <$> sel))); [|done|].
  - rewrite size_list_to_set, length_fmap by done. f_equal. f_equal.
    apply list_filter_iff. intros x. by rewrite elem_of_list_to_set.
  - intros y (x & -> & Hx)%elem_of_list_to_set%list_elem_of_fmap.
    apply elem_of_list_to_set, list_elem_of_fmap_2, Hsub, Hx.
Qed.

Lemma matched_payments_subseteq db :
  matched_payments (matching db) ⊆ query_completed_payments db.
Proof.
  intros p ([o p'] & -> & Hin)%list_elem_of_fmap.
  by apply matching_elem in Hin as (_ & ? & _).
Qed.

(** C10: the result of a successful run partitions the working set read at
    its start: the count is the number of pairs, the unmatched lists hold
    the merchant order identifiers of exactly the completed orders (payments)
    whose key is in no pair, and pairs and unmatched records add up to the
    working set. *)
Theorem result_partitions_working_set fault db db' r :
  schema_constraints db →
  reconcile_transactions fault db = (db', inr r) →
  ReconciliationResult.matched_count r = length (ReconciliationResult.matched_pairs r) ∧
  ReconciliationResult.unmatched_orders r =
    Order.merchant_order_id <$>
      filter (λ o, Order.id o ∉
                   MatchedPair.order_id <$> ReconciliationResult.matched_pairs r)
             (query_completed_orders db) ∧
  ReconciliationResult.unmatched_payments r =
    Payment.merchant_order_id <$>
      filter (λ p, Payment.id p ∉
                   MatchedPair.payment_id <$> ReconciliationResult.matched_pairs r)
             (query_completed_payments db) ∧
  (ReconciliationResult.matched_count r + length (ReconciliationResult.unmatched_orders r)
   = length (query_completed_orders db))%nat ∧
  (ReconciliationResult.matched_count r + length (ReconciliationResult.unmatched_payments r)
   = length (query_completed_payments db))%nat.
Proof.
  intros Hdb (-> & _ & _)%reconcile_transactions_inr.
  unfold run_result. cbn [ReconciliationResult.matched_count
    ReconciliationResult.matched_pairs ReconciliationResult.unmatched_orders
    ReconciliationResult.unmatched_payments].
  rewrite pair_of_order_ids, pair_of_payment_ids, !length_fmap.
  split_and!; try done.
  - rewrite Nat.add_comm, <- (length_fmap fst).
    apply length_unselected.
    + eapply sublist_NoDup; [apply (orders_pk db Hdb)|]. apply fmap_sublist, sublist_filter.
    + eapply sublist_NoDup; [apply (orders_pk db Hdb)|].
      apply fmap_sublist, matched_orders_sublist.
    + intros o Ho. eapply elem_of_sublist; [done|apply first_fit_orders_sublist].
  - rewrite Nat.add_comm, <- (length_fmap snd).
    apply length_unselected.
    + eapply sublist_NoDup; [apply (payments_pk db Hdb)|]. apply fmap_sublist, sublist_filter.
    + apply first_fit_payments_NoDup.
    + apply matched_payments_subseteq.
Qed.

Lemma result_partitions_working_set_witness :
  2%nat = length [MatchedPair.mk 1 3 "ORDER_001" (Float 10000);
                  MatchedPair.mk 3 2 "ORDER_003" (Float 700)] ∧
  ["ORDER_004"] =
    Order.merchant_order_id <$>
      filter (λ o, Order.id o ∉ MatchedPair.order_id <$>
                     [MatchedPair.mk 1 3 "ORDER_001" (Float 10000);
                      MatchedPair.mk 3 2 "ORDER_003" (Float 700)])
             (query_completed_orders busy_store) ∧
  ["ORDER_004"] =
    Payment.merchant_order_id <$>
      filter (λ p, Payment.id p ∉ MatchedPair.payment_id <$>
                     [MatchedPair.mk 1 3 "ORDER_001" (Float 10000);
                      MatchedPair.mk 3 2 "ORDER_003" (Float 700)])
             (query_completed_payments busy_store) ∧
  (2 + length ["ORDER_004"] = length (query_completed_orders busy_store))%nat ∧
  (2 + length ["ORDER_004"] = length (query_completed_payments busy_store))%nat.
Proof.
  apply (result_partitions_working_set None busy_store (committed busy_store)
           (ReconciliationResult.mk 2%nat
              [MatchedPair.mk 1 3 "ORDER_001" (Float 10000);
               MatchedPair.mk 3 2 "ORDER_003" (Float 700)]
              ["ORDER_004"] ["ORDER_004"])).
  - split; apply (bool_decide_unpack _); vm_compute; exact I.
  - vm_compute. reflexivity.
Defined.

(** ** What a run changes in the store *)

Lemma completed_orders_committed db :
  query_completed_orders (committed db) =
    filter (λ o, Order.id o ∉ Order.id <$> matched_orders (matching db))
           (query_completed_orders db).
Proof.
  unfold query_completed_orders. rewrite committed_orders.
  induction (orders db) as [|row table IH]; [done|].
  rewrite fmap_cons, !filter_cons, IH.
  destruct (decide (Order.id row ∈ _)) as [Hin|Hin]; cbn [Order.set_status Order.status].
  - rewrite decide_False by done.
    destruct (decide (Order.status row = _)); [|done].
    by rewrite filter_cons_False by (intros ?; done).
  - destruct (decide (Order.status row = _)); [|done].
    by rewrite filter_cons_True by done.
Qed.

Lemma completed_payments_committed db :
  query_completed_payments (committed db) =
    filter (λ p, Payment.id p ∉ Payment.id <$> matched_payments (matching db))
           (query_completed_payments db).
Proof.
  unfold query_completed_payments. rewrite committed_payments.
  induction (payments db) as [|row table IH]; [done|].
  rewrite fmap_cons, !filter_cons, IH.
  destruct (decide (Payment.id row ∈ _)) as [Hin|Hin]; cbn [Payment.set_status Payment.status].
  - rewrite decide_False by done.
    destruct (decide (Payment.status row = _)); [|done].
    by rewrite filter_cons_False by (intros ?; done).
  - destruct (decide (Payment.status row = _)); [|done].
    by rewrite filter_cons_True by done.
Qed.

(** After a commit nothing is left to match. *)
Lemma matching_committed db : matching (committed db) = [].
Proof.
  unfold matching at 1.
  rewrite completed_orders_committed, completed_payments_committed.
  apply first_fit_none. intros o p [Ho Hos]%list_elem_of_filter [Hp Hps]%list_elem_of_filter.
  eapply (first_fit_unmatched ∅); try done; apply not_elem_of_empty.
Qed.

Lemma committed_idem db : committed (committed db) = committed db.
Proof.
  unfold committed at 1. rewrite matching_loop_first_fit.
  fold (matching (committed db)). rewrite matching_committed.
  by destruct (committed db).
Qed.

(** C3: a second run, right after a run that went through, reads what the
    first one left unmatched, finds no match and changes nothing. *)
Theorem reconcile_twice db :
  ∃ db1 r1,
    reconcile_transactions None db = (db1, inr r1) ∧
    reconcile_transactions None db1 =
      (db1, inr (ReconciliationResult.mk 0 []
                   (ReconciliationResult.unmatched_orders r1)
                   (ReconciliationResult.unmatched_payments r1))).
Proof.
  eexists _, _. split; [by rewrite reconcile_transactions_cases|].
  rewrite reconcile_transactions_cases. unfold run_result.
  rewrite committed_idem, matching_committed.
  rewrite completed_orders_committed, completed_payments_committed.
  cbn. do 4 f_equal.
  - apply list_filter_filter_r. intros o _. apply not_elem_of_nil.
  - apply list_filter_filter_r. intros p _. apply not_elem_of_nil.
Qed.

(** C9: a run leaves the merchants alone, and every order and payment row is
    either unchanged or was completed and differs from what it was by its
    status only, now reconciled. In particular pending, failed and reconciled
    rows are unchanged. *)
Theorem reconcile_only_advances_completed fault db db' res :
  schema_constraints db →
  reconcile_transactions fault db = (db', res) →
  merchants db' = merchants db ∧
  Forall2 (λ o o', o' = o ∨
                   Order.status o = OrderStatus.completed ∧
                   o' = Order.set_status o OrderStatus.reconciled)
          (orders db) (orders db') ∧
  Forall2 (λ p p', p' = p ∨
                   Payment.status p = PaymentStatus.completed ∧
                   p' = Payment.set_status p PaymentStatus.reconciled)
          (payments db) (payments db').
Proof.
  intros Hdb Hrun.
  assert (db' = db ∨ db' = committed db) as [->| ->].
  { rewrite reconcile_transactions_cases in Hrun.
    destruct fault as [[]|]; try destruct (reads_after_commit _ _);
      injection Hrun as <- _; auto. }
  { split_and!; [done|apply Forall_Forall2_diag, Forall_true; auto..]. }
  split_and!; [done| |].
  - rewrite committed_orders. apply Forall2_fmap_r, Forall_Forall2_diag, Forall_forall.
    intros o Ho. unfold compose. case_decide as Hin; [right|by left].
    split; [|done].
    apply list_elem_of_fmap in Hin as (o' & Hid & Ho').
    assert (o' ∈ query_completed_orders db) as [Hst Hin]%list_elem_of_filter
      by (eapply elem_of_sublist; [done|apply first_fit_orders_sublist]).
    by rewrite (NoDup_fmap_eq Order.id (orders db) o o' (orders_pk db Hdb)).
  - rewrite committed_payments. apply Forall2_fmap_r, Forall_Forall2_diag, Forall_forall.
    intros p Hp. unfold compose. case_decide as Hin; [right|by left].
    split; [|done].
    apply list_elem_of_fmap in Hin as (p' & Hid & Hp').
    apply matched_payments_subseteq, list_elem_of_filter in Hp' as [Hst Hin].
    by rewrite (NoDup_fmap_eq Payment.id (payments db) p p' (payments_pk db Hdb)).
Qed.

Lemma reconcile_only_advances_completed_witness :
  merchants (committed busy_store) = merchants busy_store ∧
  Forall2 (λ o o', o' = o ∨
                   Order.status o = OrderStatus.completed ∧
                   o' = Order.set_status o OrderStatus.reconciled)
          (orders busy_store) (orders (committed busy_store)) ∧
  Forall2 (λ p p', p' = p ∨
                   Payment.status p = PaymentStatus.completed ∧
                   p' = Payment.set_status p PaymentStatus.reconciled)
          (payments busy_store) (payments (committed busy_store)).
Proof.
  apply (reconcile_only_advances_completed None busy_store (committed busy_store)
           (snd (reconcile_transactions None busy_store))).
  - split; apply (bool_decide_unpack _); vm_compute; exact I.
  - vm_compute. reflexivity.
Defined.

(** ** Failure of a run *)





(** ** Duplicate keys on create *)

(** A second order for [ORDER_001]: the answer is a 400, where a second
    merchant [M1] is answered with a 409. *)
Lemma duplicate_order_is_not_a_conflict :
  ∃ e e',
    create_order mysql_duplicate_key_message
      (OrderCreate.mk "M1" "ORDER_001" 500 "USD" None 739290 OrderStatus.pending)
      (scenario 10000 739281) = (scenario 10000 739281, inl e) ∧
    ¬ is_conflict e ∧
    create_merchant (MerchantCreate.mk "M1" "Merchant one") (scenario 10000 739281)
      = (scenario 10000 739281, inl e') ∧
    is_conflict e'.
Proof.
  eexists _, _. split_and!; [vm_compute; reflexivity|vm_compute; discriminate| |].
  - vm_compute. reflexivity.
  - reflexivity.
Qed.

(** An amount of 100000000.00 does not fit [Numeric(10, 2)]: the insert fails
    with an error that is no integrity error, and the answer is a 500, also
    when the order identifier is taken. *)
Example create_order_amount_out_of_range :
  create_order mysql_duplicate_key_message
    (OrderCreate.mk "M1" "ORDER_001" 10000000000 "USD" None 739290 OrderStatus.pending)
    (scenario 10000 739281)
  = (scenario 10000 739281,
     inl (HTTPException.mk 500 "An unexpected error occurred")).
Proof. vm_compute. reflexivity. Qed.

(** C6, as the code has it: when the merchant exists, the amount is one the
    column can hold and the merchant order identifier is already taken,
    [create_order] and [create_payment] fail with a 400 Bad Request and store
    nothing. *)
Theorem duplicate_create_is_bad_request duplicate_key_message db :
  (∀ order,
     is_Some (find_merchant (OrderCreate.merchant_id order) db) →
     fits_numeric_10_2 (OrderCreate.amount order) →
     OrderCreate.merchant_order_id order ∈ Order.merchant_order_id <$> orders db →
     ∃ e, create_order duplicate_key_message order db = (db, inl e) ∧
          HTTPException.status_code e = HTTP_400_BAD_REQUEST) ∧
  (∀ payment,
     is_Some (find_merchant (PaymentCreate.merchant_id payment) db) →
     fits_numeric_10_2 (PaymentCreate.amount payment) →
     PaymentCreate.merchant_order_id payment ∈ Payment.merchant_order_id <$> payments db →
     ∃ e, create_payment duplicate_key_message payment db = (db, inl e) ∧
          HTTPException.status_code e = HTTP_400_BAD_REQUEST).
Proof.
  split.
  - intros order [merchant Hm] Hfits Hdup. unfold create_order, insert_order.
    rewrite Hm. cbn. rewrite (decide_True (P := fits_numeric_10_2 _)) by done.
    rewrite decide_True by done.
    destruct (contains _ _); eexists; split; done.
  - intros payment [merchant Hm] Hfits Hdup. unfold create_payment, insert_payment.
    rewrite Hm. cbn. rewrite (decide_True (P := fits_numeric_10_2 _)) by done.
    rewrite decide_True by done.
    destruct (contains _ _); eexists; split; done.
Qed.

Lemma duplicate_create_is_bad_request_witness :
  (∃ e, create_order mysql_duplicate_key_message
          (OrderCreate.mk "M1" "ORDER_001" 500 "USD" None 739290 OrderStatus.pending)
          (scenario 10000 739281) = (scenario 10000 739281, inl e) ∧
        HTTPException.status_code e = HTTP_400_BAD_REQUEST) ∧
  (∃ e, create_payment mysql_duplicate_key_message
          (PaymentCreate.mk "M1" "ORDER_001" 500 "USD" None 739290 PaymentStatus.pending)
          (scenario 10000 739281) = (scenario 10000 739281, inl e) ∧
        HTTPException.status_code e = HTTP_400_BAD_REQUEST).
Proof.
  destruct (duplicate_create_is_bad_request mysql_duplicate_key_message
              (scenario 10000 739281)) as [Horder Hpayment].
  split.
  - apply Horder; [by eexists|cbn; unfold fits_numeric_10_2; lia|apply list_elem_of_here].
  - apply Hpayment; [by eexists|cbn; unfold fits_numeric_10_2; lia|apply list_elem_of_here].
Defined.

(** ** The report *)

Lemma count_or_0_id c : count_or_0 c = c.
Proof. unfold count_or_0. by case_decide. Qed.

Lemma total_or_0_sum amounts : total_or_0 (sql_sum amounts) = sum_amounts amounts.
Proof.
  destruct amounts as [|a amounts]; [done|].
  unfold sql_sum, total_or_0. by case_decide.
Qed.

(** C7: the report's totals are the number of reconciled payments, the sum of
    their stored amounts, and the numbers of completed orders and of completed
    payments. *)
Theorem report_totals db :
  ∃ report,
    get_reconciliation_report db = inr report ∧
    ReconciliationReport.total_reconciled_count report =
      Z.of_nat (length (filter (λ p, Payment.status p = PaymentStatus.reconciled) (payments db))) ∧
    ReconciliationReport.total_reconciled_amount report =
      float (sum_amounts (Payment.amount <$>
               filter (λ p, Payment.status p = PaymentStatus.reconciled) (payments db))) ∧
    ReconciliationReport.total_unmatched_orders report =
      Z.of_nat (length (filter (λ o, Order.status o = OrderStatus.completed) (orders db))) ∧
    ReconciliationReport.total_unmatched_payments report =
      Z.of_nat (length (filter (λ p, Payment.status p = PaymentStatus.completed) (payments db))).
Proof.
  eexists. split; [reflexivity|]. cbn.
  rewrite !count_or_0_id, !total_or_0_sum. unfold sql_count.
  by rewrite !length_fmap.
Qed.

Lemma dict_of_lookup {V} (rows : list (Z * V)) k v :
  dict_of rows !! k = Some v → (k, v) ∈ rows.
Proof.
  unfold dict_of.
  assert (∀ acc : gmap Z V,
            foldl (λ d row, <[row.1 := row.2]> d) acc rows !! k = Some v →
            acc !! k = Some v ∨ (k, v) ∈ rows) as Hgen.
  { induction rows as [|[k' v'] rows IH]; intros acc; cbn [foldl]; [by left|].
    intros [Hacc|?]%IH; [|right; by right]. cbn in Hacc.
    apply lookup_insert_Some in Hacc as [[-> ->]|[_ ?]]; [right; by left|by left]. }
  intros [Hempty|?]%Hgen; [|done]. by rewrite lookup_empty in Hempty.
Qed.

Lemma group_by_elem {A} (key : A → option Z) (rows : list A) k g :
  (k, g) ∈ group_by key rows → ∃ r, r ∈ rows ∧ key r = Some k.
Proof.
  unfold group_by. intros (k' & [= <- _] & Hk)%list_elem_of_fmap.
  by apply elem_of_remove_dups, list_elem_of_omap in Hk.
Qed.

Lemma reconciled_by_merchant_elem db k v :
  (k, v) ∈ reconciled_by_merchant db →
  ∃ p, p ∈ payments db ∧ Payment.status p = PaymentStatus.reconciled ∧
       Payment.merchant_id p = Some k.
Proof.
  unfold reconciled_by_merchant.
  intros ([k' g] & [= <- _] & (p & Hp & Hk)%group_by_elem)%list_elem_of_fmap.
  apply list_elem_of_filter in Hp as [_ [Hst Hp]%list_elem_of_filter].
  eauto.
Qed.

Lemma unmatched_orders_by_merchant_elem db k v :
  (k, v) ∈ unmatched_orders_by_merchant db →
  ∃ o, o ∈ orders db ∧ Order.status o = OrderStatus.completed ∧
       Order.merchant_id o = Some k.
Proof.
  unfold unmatched_orders_by_merchant.
  intros ([k' g] & [= <- _] & (o & Ho & Hk)%group_by_elem)%list_elem_of_fmap.
  apply list_elem_of_filter in Ho as [_ [Hst Ho]%list_elem_of_filter].
  eauto.
Qed.

Lemma unmatched_payments_by_merchant_elem db k v :
  (k, v) ∈ unmatched_payments_by_merchant db →
  ∃ p, p ∈ payments db ∧ Payment.status p = PaymentStatus.completed ∧
       Payment.merchant_id p = Some k.
Proof.
  unfold unmatched_payments_by_merchant.
  intros ([k' g] & [= <- _] & (p & Hp & Hk)%group_by_elem)%list_elem_of_fmap.
  apply list_elem_of_filter in Hp as [_ [Hst Hp]%list_elem_of_filter].
  eauto.
Qed.

(** C8: on the empty store the report is built, with every count 0, every
    amount 0.0 and no merchant summary; and on any store a total or a
    per-merchant figure over no record is zero. *)
Theorem report_empty_groupings :
  get_reconciliation_report (mkStore [] [] []) =
    inr (ReconciliationReport.mk (Float 0) 0 0 0 (Float 0) (Float 0) []) ∧
  ∀ db, ∃ report,
    get_reconciliation_report db = inr report ∧
    ((∀ p, p ∈ payments db → Payment.status p ≠ PaymentStatus.reconciled) →
     ReconciliationReport.total_reconciled_count report = 0 ∧
     ReconciliationReport.total_reconciled_amount report = Float 0) ∧
    ((∀ o, o ∈ orders db → Order.status o ≠ OrderStatus.completed) →
     ReconciliationReport.total_unmatched_orders report = 0 ∧
     ReconciliationReport.unmatched_orders_amount report = Float 0) ∧
    ((∀ p, p ∈ payments db → Payment.status p ≠ PaymentStatus.completed) →
     ReconciliationReport.total_unmatched_payments report = 0 ∧
     ReconciliationReport.unmatched_payments_amount report = Float 0) ∧
    ∀ row, row ∈ ReconciliationReport.merchants_summary report →
      ((∀ p, p ∈ payments db → Payment.status p = PaymentStatus.reconciled →
             Payment.merchant_id p ≠ Some (MerchantSummary.merchant_id row)) →
       MerchantSummary.reconciled_count row = 0 ∧
       MerchantSummary.reconciled_amount row = Float 0) ∧
      ((∀ o, o ∈ orders db → Order.status o = OrderStatus.completed →
             Order.merchant_id o ≠ Some (MerchantSummary.merchant_id row)) →
       MerchantSummary.unmatched_orders row = 0) ∧
      ((∀ p, p ∈ payments db → Payment.status p = PaymentStatus.completed →
             Payment.merchant_id p ≠ Some (MerchantSummary.merchant_id row)) →
       MerchantSummary.unmatched_payments row = 0).
Proof.
  split; [vm_compute; reflexivity|].
  intros db. eexists. split; [reflexivity|].
  cbn [ReconciliationReport.total_reconciled_count
       ReconciliationReport.total_reconciled_amount
       ReconciliationReport.total_unmatched_orders
       ReconciliationReport.total_unmatched_payments
       ReconciliationReport.unmatched_orders_amount
       ReconciliationReport.unmatched_payments_amount
       ReconciliationReport.merchants_summary count total].
  rewrite !count_or_0_id, !total_or_0_sum.
  assert (Hnil : ∀ {A} (P : A → Prop) `{!∀ x, Decision (P x)} (l : list A),
            (∀ x, x ∈ l → ¬ P x) → filter P l = []).
  { intros A P ? l Hl. induction l as [|a l IH]; [done|].
    rewrite filter_cons_False by (apply Hl; by left).
    apply IH. intros x ?. apply Hl. by right. }
  split_and!.
  - intros Hno. unfold reconciled_payments. by rewrite Hnil.
  - intros Hno. unfold query_completed_orders. by rewrite Hnil.
  - intros Hno. unfold query_completed_payments. by rewrite Hnil.
  - unfold merchants_summary. intros row (k & -> & _)%list_elem_of_fmap. cbn.
    split_and!.
    + intros Hno.
      destruct (dict_of _ !! k) as [v|] eqn:Hk; [exfalso|done].
      apply dict_of_lookup, list_elem_of_fmap in Hk as ([k' v'] & [= <- _] & Hin).
      apply reconciled_by_merchant_elem in Hin as (p & ? & ? & ?). by eapply Hno.
    + intros Hno.
      destruct (dict_of (unmatched_orders_by_merchant db) !! k) as [v|] eqn:Hk; [exfalso|done].
      apply dict_of_lookup, unmatched_orders_by_merchant_elem in Hk as (o & ? & ? & ?).
      by eapply Hno.
    + intros Hno.
      destruct (dict_of (unmatched_payments_by_merchant db) !! k) as [v|] eqn:Hk; [exfalso|done].
      apply dict_of_lookup, unmatched_payments_by_merchant_elem in Hk as (p & ? & ? & ?).
      by eapply Hno.
Qed.

Lemma report_empty_groupings_witness :
  ∃ report,
    get_reconciliation_report (scenario 10000 739287) = inr report ∧
    ReconciliationReport.total_reconciled_count report = 0 ∧
    ReconciliationReport.total_reconciled_amount report = Float 0 ∧
    ReconciliationReport.total_unmatched_orders report = 1 ∧
    Forall (λ row, MerchantSummary.reconciled_count row = 0 ∧
                   MerchantSummary.reconciled_amount row = Float 0)
           (ReconciliationReport.merchants_summary report).
Proof.
  destruct (proj2 report_empty_groupings (scenario 10000 739287))
    as (report & Hreport & Htotal & _ & _ & Hrows).
  assert (Hnone : ∀ p, p ∈ payments (scenario 10000 739287) →
                       Payment.status p ≠ PaymentStatus.reconciled).
  { intros p ->%list_elem_of_singleton. discriminate. }
  exists report. split_and!; [done|by apply Htotal..| |].
  - injection Hreport as <-. reflexivity.
  - apply Forall_forall. intros row Hrow. apply (Hrows row Hrow).
    intros p Hp Hst. by apply Hnone in Hp.
Defined.

Example busy_store_report :
  get_reconciliation_report busy_store =
    inr (ReconciliationReport.mk (Float 1200) 1 3 3 (Float 11600) (Float 11600)
           [MerchantSummary.mk 2 0 (Float 0) 2 2;
            MerchantSummary.mk 1 1 (Float 1200) 1 1]).
Proof. vm_compute. reflexivity. Qed.

Example committed_busy_store_report :
  get_reconciliation_report (committed busy_store) =
    inr (ReconciliationReport.mk (Float 11900) 3 1 1 (Float 900) (Float 900)
           [MerchantSummary.mk 2 1 (Float 700) 1 1;
            MerchantSummary.mk 1 2 (Float 11200) 0 0]).
Proof. vm_compute. reflexivity. Qed.

Example create_order_fresh :
  create_order mysql_duplicate_key_message
    (OrderCreate.mk "M1" "ORDER_002" 500 "USD" None 739290 OrderStatus.pending)
    (scenario 10000 739281) =
  (mkStore [Merchant.mk 1 "M1" "Merchant one"]
     [order_001;
      Order.mk 2 (Some 1) "ORDER_002" 500 "USD" None (Some 739290) OrderStatus.pending]
     [payment_001 10000 739281],
   inr (Order.mk 2 (Some 1) "ORDER_002" 500 "USD" None (Some 739290) OrderStatus.pending)).
Proof. vm_compute. reflexivity. Qed.

Example create_order_duplicate :
  create_order mysql_duplicate_key_message
    (OrderCreate.mk "M1" "ORDER_001" 500 "USD" None 739290 OrderStatus.pending)
    (scenario 10000 739281) =
  (scenario 10000 739281,
   inl (HTTPException.mk 400 "Order with merchant_order_id 'ORDER_001' already exists")).
Proof. vm_compute. reflexivity. Qed.

Example create_order_unknown_merchant :
  create_order mysql_duplicate_key_message
    (OrderCreate.mk "M9" "ORDER_001" 500 "USD" None 739290 OrderStatus.pending)
    (scenario 10000 739281) =
  (scenario 10000 739281,
   inl (HTTPException.mk 404 "Merchant with merchant_id 'M9' not found")).
Proof. vm_compute. reflexivity. Qed.

(** * Further properties of the endpoints *)

(** ** Lookups by key *)

Lemma head_filter_None {A} (P : A → Prop) `{!∀ x, Decision (P x)} (l : list A) :
  head (filter P l) = None ↔ ∀ x, x ∈ l → ¬ P x.
Proof.
  rewrite head_None. split.
  - intros Hnil x Hx HP.
    assert (x ∈ filter P l) as Hin by (by apply list_elem_of_filter).
    rewrite Hnil in Hin. by apply elem_of_nil in Hin.
  - intros Hno. destruct (filter P l) as [|x l'] eqn:Hf; [done|].
    assert (x ∈ filter P l) as [HP Hx]%list_elem_of_filter by (rewrite Hf; by left).
    by destruct (Hno x Hx).
Qed.

Lemma head_filter_Some {A} (P : A → Prop) `{!∀ x, Decision (P x)} (l : list A) x :
  head (filter P l) = Some x → x ∈ l ∧ P x.
Proof.
  intros Hhead. destruct (filter P l) as [|y l'] eqn:Hf; [done|].
  injection Hhead as ->.
  assert (x ∈ filter P l) as [HP Hx]%list_elem_of_filter by (rewrite Hf; by left).
  done.
Qed.

(** [GET /orders/{merchant_order_id}] answers 404 exactly when no order has
    the identifier; otherwise it answers with a stored order that has it,
    the only one when the identifier is a unique key. *)
Theorem get_order_lookup merchant_order_id db :
  match get_order merchant_order_id db with
  | inr order =>
      order ∈ orders db ∧ Order.merchant_order_id order = merchant_order_id ∧
      (NoDup (Order.merchant_order_id <$> orders db) →
       ∀ o, o ∈ orders db → Order.merchant_order_id o = merchant_order_id → o = order)
  | inl e =>
      HTTPException.status_code e = HTTP_404_NOT_FOUND ∧
      merchant_order_id ∉ Order.merchant_order_id <$> orders db
  end.
Proof.
  unfold get_order.
  destruct (head (filter _ (orders db))) as [order|] eqn:Hhead.
  - apply head_filter_Some in Hhead as [Hin Hid]. split_and!; [done..|].
    intros Hnd o Ho Ho'. eapply NoDup_fmap_eq; [done..|]. by rewrite Hid.
  - split; [done|]. intros (o & Hid & Ho)%list_elem_of_fmap.
    by eapply (proj1 (head_filter_None _ _) Hhead o).
Qed.

(** [GET /payments/{merchant_order_id}]: the same for payments. *)
Theorem get_payment_lookup merchant_order_id db :
  match get_payment merchant_order_id db with
  | inr payment =>
      payment ∈ payments db ∧ Payment.merchant_order_id payment = merchant_order_id ∧
      (NoDup (Payment.merchant_order_id <$> payments db) →
       ∀ p, p ∈ payments db → Payment.merchant_order_id p = merchant_order_id → p = payment)
  | inl e =>
      HTTPException.status_code e = HTTP_404_NOT_FOUND ∧
      merchant_order_id ∉ Payment.merchant_order_id <$> payments db
  end.
Proof.
  unfold get_payment.
  destruct (head (filter _ (payments db))) as [payment|] eqn:Hhead.
  - apply head_filter_Some in Hhead as [Hin Hid]. split_and!; [done..|].
    intros Hnd p Hp Hp'. eapply NoDup_fmap_eq; [done..|]. by rewrite Hid.
  - split; [done|]. intros (p & Hid & Hp)%list_elem_of_fmap.
    by eapply (proj1 (head_filter_None _ _) Hhead p).
Qed.

(** [GET /merchants/{merchant_id}] looks the merchant up by its business
    identifier, not by its database key: 404 exactly when no merchant has the
    identifier, a stored merchant with that identifier otherwise. *)
Theorem get_merchant_lookup merchant_id db :
  match get_merchant merchant_id db with
  | inr merchant =>
      merchant ∈ merchants db ∧ Merchant.merchant_id merchant = merchant_id ∧
      (NoDup (Merchant.merchant_id <$> merchants db) →
       ∀ m, m ∈ merchants db → Merchant.merchant_id m = merchant_id → m = merchant)
  | inl e =>
      HTTPException.status_code e = HTTP_404_NOT_FOUND ∧
      merchant_id ∉ Merchant.merchant_id <$> merchants db
  end.
Proof.
  unfold get_merchant, find_merchant.
  destruct (head (filter _ (merchants db))) as [merchant|] eqn:Hhead.
  - apply head_filter_Some in Hhead as [Hin Hid]. split_and!; [done..|].
    intros Hnd m Hm Hm'. eapply NoDup_fmap_eq; [done..|]. by rewrite Hid.
  - split; [done|]. intros (m & Hid & Hm)%list_elem_of_fmap.
    by eapply (proj1 (head_filter_None _ _) Hhead m).
Qed.

(** ** Pages *)

Lemma offset_limit_Some {A} skip limit (rows : list A) :
  0 ≤ skip → 0 ≤ limit →
  offset_limit skip limit rows = Some (take (Z.to_nat limit) (drop (Z.to_nat skip) rows)).
Proof. intros. unfold offset_limit. by rewrite decide_True. Qed.

Lemma offset_limit_compose {A} skip a b (rows : list A) :
  0 ≤ skip → 0 ≤ a → 0 ≤ b →
  ∃ first second,
    offset_limit skip a rows = Some first ∧
    offset_limit (skip + a) b rows = Some second ∧
    offset_limit skip (a + b) rows = Some (first ++ second).
Proof.
  intros. eexists _, _. rewrite !offset_limit_Some by lia. split_and!; [done..|].
  f_equal. rewrite !Z2Nat.inj_add by lia.
  by rewrite <- drop_drop, take_take_drop.
Qed.

Lemma offset_limit_page {A} skip limit (rows : list A) :
  0 ≤ skip → 0 ≤ limit →
  ∃ page,
    offset_limit skip limit rows = Some page ∧
    Z.of_nat (length page) ≤ limit ∧
    page `sublist_of` rows ∧
    (skip = 0 → Z.of_nat (length rows) ≤ limit → page = rows).
Proof.
  intros. eexists. rewrite offset_limit_Some by lia. split_and!; [done|..].
  - rewrite length_take. lia.
  - etrans; [apply sublist_take|apply sublist_drop].
  - intros -> Hlen. cbn. apply take_ge. lia.
Qed.

(** [GET /orders]: for a skip and a limit that are not negative the page
    holds at most [limit] orders, in the order of the table, all of the
    status asked for when one is given; and it is the whole table when no
    status is asked for, nothing is skipped and the limit is large enough. *)
Theorem get_orders_page skip limit status db :
  0 ≤ skip → 0 ≤ limit →
  ∃ page,
    get_orders skip limit status db = Some page ∧
    Z.of_nat (length page) ≤ limit ∧
    page `sublist_of` orders db ∧
    (∀ s, status = Some s → Forall (λ o, Order.status o = s) page) ∧
    (status = None → skip = 0 → Z.of_nat (length (orders db)) ≤ limit → page = orders db).
Proof.
  intros Hskip Hlimit. unfold get_orders. cbn zeta.
  destruct (offset_limit_page skip limit
              (match status with
               | Some s => filter (λ o, Order.status o = s) (orders db)
               | None => orders db
               end) Hskip Hlimit) as (page & Hpage & Hlen & Hsub & Hall).
  exists page. split_and!; [done..| | |].
  - etrans; [done|]. destruct status; [apply sublist_filter|done].
  - intros s ->. apply Forall_forall. intros o Ho.
    eapply elem_of_sublist in Ho; [|done].
    by apply list_elem_of_filter in Ho as [? _].
  - intros ->. apply Hall.
Qed.

Lemma get_orders_page_witness :
  ∃ page,
    get_orders 1 2 (Some OrderStatus.completed) busy_store = Some page ∧
    Z.of_nat (length page) ≤ 2 ∧
    page `sublist_of` orders busy_store ∧
    (∀ s, Some OrderStatus.completed = Some s → Forall (λ o, Order.status o = s) page) ∧
    (Some OrderStatus.completed = None → 1 = 0 →
     Z.of_nat (length (orders busy_store)) ≤ 2 → page = orders busy_store).
Proof. apply (get_orders_page 1 2 (Some OrderStatus.completed) busy_store); lia. Defined.

(** [GET /orders]: consecutive pages join up: the page of [a] orders after
    [skip], followed by the page of [b] orders after [skip + a], is the page
    of [a + b] orders after [skip]. *)
Theorem get_orders_pages_join skip a b status db :
  0 ≤ skip → 0 ≤ a → 0 ≤ b →
  ∃ first second,
    get_orders skip a status db = Some first ∧
    get_orders (skip + a) b status db = Some second ∧
    get_orders skip (a + b) status db = Some (first ++ second).
Proof. intros. unfold get_orders. by apply offset_limit_compose. Qed.

Lemma get_orders_pages_join_witness :
  ∃ first second,
    get_orders 0 2 None busy_store = Some first ∧
    get_orders (0 + 2) 3 None busy_store = Some second ∧
    get_orders 0 (2 + 3) None busy_store = Some (first ++ second).
Proof. apply (get_orders_pages_join 0 2 3 None busy_store); lia. Defined.

(** [GET /payments]: a page holds at most [limit] payments, in the order of
    the table and of the status asked for, and consecutive pages join up. *)
Theorem get_payments_pages skip a b status db :
  0 ≤ skip → 0 ≤ a → 0 ≤ b →
  ∃ first second,
    get_payments skip a status db = Some first ∧
    get_payments (skip + a) b status db = Some second ∧
    get_payments skip (a + b) status db = Some (first ++ second) ∧
    Z.of_nat (length first) ≤ a ∧
    first `sublist_of` payments db ∧
    (∀ s, status = Some s → Forall (λ p, Payment.status p = s) first).
Proof.
  intros Hskip Ha Hb. unfold get_payments. cbn zeta.
  destruct (offset_limit_compose skip a b
              (match status with
               | Some s => filter (λ p, Payment.status p = s) (payments db)
               | None => payments db
               end) Hskip Ha Hb) as (first & second & H1 & H2 & H3).
  destruct (offset_limit_page skip a
              (match status with
               | Some s => filter (λ p, Payment.status p = s) (payments db)
               | None => payments db
               end) Hskip Ha) as (page & Hpage & Hlen & Hsub & _).
  rewrite H1 in Hpage. injection Hpage as <-.
  exists first, second. split_and!; [done..| |].
  - etrans; [done|]. destruct status; [apply sublist_filter|done].
  - intros s ->. apply Forall_forall. intros p Hp.
    eapply elem_of_sublist in Hp; [|done].
    by apply list_elem_of_filter in Hp as [? _].
Qed.

Lemma get_payments_pages_witness :
  ∃ first second,
    get_payments 1 2 (Some PaymentStatus.completed) busy_store = Some first ∧
    get_payments (1 + 2) 1 (Some PaymentStatus.completed) busy_store = Some second ∧
    get_payments 1 (2 + 1) (Some PaymentStatus.completed) busy_store = Some (first ++ second) ∧
    Z.of_nat (length first) ≤ 2 ∧
    first `sublist_of` payments busy_store ∧
    (∀ s, Some PaymentStatus.completed = Some s → Forall (λ p, Payment.status p = s) first).
Proof. apply (get_payments_pages 1 2 1 (Some PaymentStatus.completed) busy_store); lia. Defined.

(** [GET /merchants]: a page holds at most [limit] merchants, in the order of
    the table, and consecutive pages join up. *)
Theorem get_merchants_pages skip a b db :
  0 ≤ skip → 0 ≤ a → 0 ≤ b →
  ∃ first second,
    get_merchants skip a db = Some first ∧
    get_merchants (skip + a) b db = Some second ∧
    get_merchants skip (a + b) db = Some (first ++ second) ∧
    Z.of_nat (length first) ≤ a ∧
    first `sublist_of` merchants db.
Proof.
  intros Hskip Ha Hb. unfold get_merchants.
  destruct (offset_limit_compose skip a b (merchants db) Hskip Ha Hb)
    as (first & second & H1 & H2 & H3).
  destruct (offset_limit_page skip a (merchants db) Hskip Ha)
    as (page & Hpage & Hlen & Hsub & _).
  rewrite H1 in Hpage. injection Hpage as <-.
  by exists first, second.
Qed.

Lemma get_merchants_pages_witness :
  ∃ first second,
    get_merchants 0 1 busy_store = Some first ∧
    get_merchants (0 + 1) 5 busy_store = Some second ∧
    get_merchants 0 (1 + 5) busy_store = Some (first ++ second) ∧
    Z.of_nat (length first) ≤ 1 ∧
    first `sublist_of` merchants busy_store.
Proof. apply (get_merchants_pages 0 1 5 busy_store); lia. Defined.

(** ** Creation *)

Lemma next_id_fresh ids : next_id ids ∉ ids.
Proof.
  assert (∀ i, i ∈ ids → i ≤ foldr Z.max 0 ids) as Hmax.
  { induction ids as [|j ids IH]; [by intros ? ?%elem_of_nil|].
    intros i [->|Hi]%elem_of_cons; cbn; [lia|]. apply IH in Hi. lia. }
  intros Hin. apply Hmax in Hin. unfold next_id in Hin. lia.
Qed.

Lemma head_filter_app_new {A} (P : A → Prop) `{!∀ x, Decision (P x)} (l : list A) x :
  (∀ y, y ∈ l → ¬ P y) → P x → head (filter P (l ++ [x])) = Some x.
Proof.
  intros Hno Hx. rewrite filter_app.
  assert (filter P l = []) as ->.
  { induction l as [|a l IH]; [done|].
    rewrite filter_cons_False by (apply Hno; by left).
    apply IH. intros y ?. apply Hno. by right. }
  cbn. by rewrite decide_True.
Qed.

(** [POST /merchants]: either the business identifier is taken, the answer is
    a 409 and the store is as before; or a merchant with a new key and the
    fields of the request is appended to the merchants, nothing else changes,
    and [GET /merchants/{merchant_id}] then answers with it. *)
Theorem create_merchant_outcome merchant db :
  match create_merchant merchant db with
  | (db', inr m) =>
      (MerchantCreate.merchant_id merchant ∉ Merchant.merchant_id <$> merchants db) ∧
      (Merchant.id m ∉ Merchant.id <$> merchants db) ∧
      Merchant.merchant_id m = MerchantCreate.merchant_id merchant ∧
      Merchant.merchant_name m = MerchantCreate.merchant_name merchant ∧
      db' = mkStore (merchants db ++ [m]) (orders db) (payments db) ∧
      get_merchant (MerchantCreate.merchant_id merchant) db' = inr m
  | (db', inl e) =>
      db' = db ∧ HTTPException.status_code e = HTTP_409_CONFLICT ∧
      MerchantCreate.merchant_id merchant ∈ Merchant.merchant_id <$> merchants db
  end.
Proof.
  unfold create_merchant, find_merchant.
  destruct (head (filter _ (merchants db))) as [existing|] eqn:Hhead.
  - apply head_filter_Some in Hhead as [Hin <-]. split_and!; [done..|].
    by apply list_elem_of_fmap_2.
  - pose proof (proj1 (head_filter_None _ _) Hhead) as Hno.
    split_and!; [|apply next_id_fresh|done..|].
    + intros (m & Hid & Hm)%list_elem_of_fmap. by eapply Hno.
    + unfold get_merchant, find_merchant. cbn [merchants].
      by rewrite head_filter_app_new.
Qed.

(** [POST /orders]: a failure leaves the store as before: a 404 when no
    merchant has the business identifier, whatever the rest of the request; a
    500 when the merchant exists and the amount is one the column cannot hold,
    whether or not the order identifier is taken; and a 400 when the merchant
    exists, the amount fits and the order identifier is taken. Otherwise one
    order is appended, with a new key, the key of the merchant found, the
    fields and the status of the request, and [GET /orders/{id}] finds it. *)
Theorem create_order_outcome duplicate_key_message order db :
  match create_order duplicate_key_message order db with
  | (db', inr o) =>
      (∃ merchant,
         find_merchant (OrderCreate.merchant_id order) db = Some merchant ∧
         o = Order.mk (Order.id o) (Some (Merchant.id merchant))
               (OrderCreate.merchant_order_id order) (OrderCreate.amount order)
               (OrderCreate.currency order) (OrderCreate.description order)
               (Some (OrderCreate.order_date order)) (OrderCreate.status order)) ∧
      fits_numeric_10_2 (OrderCreate.amount order) ∧
      (OrderCreate.merchant_order_id order ∉ Order.merchant_order_id <$> orders db) ∧
      (Order.id o ∉ Order.id <$> orders db) ∧
      db' = mkStore (merchants db) (orders db ++ [o]) (payments db) ∧
      get_order (OrderCreate.merchant_order_id order) db' = inr o
  | (db', inl e) =>
      db' = db ∧
      (HTTPException.status_code e = HTTP_404_NOT_FOUND ∧
       OrderCreate.merchant_id order ∉ Merchant.merchant_id <$> merchants db
       ∨
       e = HTTPException.mk HTTP_500_INTERNAL_SERVER_ERROR "An unexpected error occurred" ∧
       OrderCreate.merchant_id order ∈ Merchant.merchant_id <$> merchants db ∧
       ¬ fits_numeric_10_2 (OrderCreate.amount order)
       ∨
       HTTPException.status_code e = HTTP_400_BAD_REQUEST ∧
       OrderCreate.merchant_id order ∈ Merchant.merchant_id <$> merchants db ∧
       fits_numeric_10_2 (OrderCreate.amount order) ∧
       OrderCreate.merchant_order_id order ∈ Order.merchant_order_id <$> orders db)
  end.
Proof.
  unfold create_order, insert_order, find_merchant.
  destruct (head (filter _ (merchants db))) as [merchant|] eqn:Hhead.
  - apply head_filter_Some in Hhead as Hm. destruct Hm as [Hin Hmid].
    assert (OrderCreate.merchant_id order ∈ Merchant.merchant_id <$> merchants db)
      by (rewrite <- Hmid; by apply list_elem_of_fmap_2).
    cbn [Order.merchant_order_id Order.amount].
    destruct (decide (fits_numeric_10_2 _)) as [Hfits|Hbig];
      [|split; [done|]; right; left; done].
    destruct (decide (_ ∈ _)) as [Hdup|Hfresh].
    + destruct (contains _ _); (split; [done|]); right; right; done.
    + split_and!; [by eexists|done|done|apply next_id_fresh|done|].
      unfold get_order. cbn [orders]. rewrite head_filter_app_new; [done| |done].
      intros o Ho Hid. apply Hfresh. rewrite <- Hid. by apply list_elem_of_fmap_2.
  - pose proof (proj1 (head_filter_None _ _) Hhead) as Hno.
    split; [done|]. left. split; [done|].
    intros (m & Hid & Hm)%list_elem_of_fmap. by eapply Hno.
Qed.

(** [POST /payments]: the same outcomes as for orders. A payment is stored
    whether or not an order with its identifier exists. *)
Theorem create_payment_outcome duplicate_key_message payment db :
  match create_payment duplicate_key_message payment db with
  | (db', inr p) =>
      (∃ merchant,
         find_merchant (PaymentCreate.merchant_id payment) db = Some merchant ∧
         p = Payment.mk (Payment.id p) (Some (Merchant.id merchant))
               (PaymentCreate.merchant_order_id payment) (PaymentCreate.amount payment)
               (PaymentCreate.currency payment) (PaymentCreate.description payment)
               (Some (PaymentCreate.payment_date payment)) (PaymentCreate.status payment)) ∧
      fits_numeric_10_2 (PaymentCreate.amount payment) ∧
      (PaymentCreate.merchant_order_id payment ∉ Payment.merchant_order_id <$> payments db) ∧
      (Payment.id p ∉ Payment.id <$> payments db) ∧
      db' = mkStore (merchants db) (orders db) (payments db ++ [p]) ∧
      get_payment (PaymentCreate.merchant_order_id payment) db' = inr p
  | (db', inl e) =>
      db' = db ∧
      (HTTPException.status_code e = HTTP_404_NOT_FOUND ∧
       PaymentCreate.merchant_id payment ∉ Merchant.merchant_id <$> merchants db
       ∨
       e = HTTPException.mk HTTP_500_INTERNAL_SERVER_ERROR "An unexpected error occurred" ∧
       PaymentCreate.merchant_id payment ∈ Merchant.merchant_id <$> merchants db ∧
       ¬ fits_numeric_10_2 (PaymentCreate.amount payment)
       ∨
       HTTPException.status_code e = HTTP_400_BAD_REQUEST ∧
       PaymentCreate.merchant_id payment ∈ Merchant.merchant_id <$> merchants db ∧
       fits_numeric_10_2 (PaymentCreate.amount payment) ∧
       PaymentCreate.merchant_order_id payment ∈ Payment.merchant_order_id <$> payments db)
  end.
Proof.
  unfold create_payment, insert_payment, find_merchant.
  destruct (head (filter _ (merchants db))) as [merchant|] eqn:Hhead.
  - apply head_filter_Some in Hhead as Hm. destruct Hm as [Hin Hmid].
    assert (PaymentCreate.merchant_id payment ∈ Merchant.merchant_id <$> merchants db)
      by (rewrite <- Hmid; by apply list_elem_of_fmap_2).
    cbn [Payment.merchant_order_id Payment.amount].
    destruct (decide (fits_numeric_10_2 _)) as [Hfits|Hbig];
      [|split; [done|]; right; left; done].
    destruct (decide (_ ∈ _)) as [Hdup|Hfresh].
    + destruct (contains _ _); (split; [done|]); right; right; done.
    + split_and!; [by eexists|done|done|apply next_id_fresh|done|].
      unfold get_payment. cbn [payments]. rewrite head_filter_app_new; [done| |done].
      intros p Hp Hid. apply Hfresh. rewrite <- Hid. by apply list_elem_of_fmap_2.
  - pose proof (proj1 (head_filter_None _ _) Hhead) as Hno.
    split; [done|]. left. split; [done|].
    intros (m & Hid & Hm)%list_elem_of_fmap. by eapply Hno.
Qed.

(** ** Invariants of the store *)

Lemma NoDup_snoc_fresh {A} (l : list A) x : NoDup l → x ∉ l → NoDup (l ++ [x]).
Proof.
  intros Hl Hx. apply NoDup_app. split_and!; [done| |apply NoDup_singleton].
  intros y Hy ->%list_elem_of_singleton. done.
Qed.

Lemma create_merchant_invariants merchant db :
  schema_constraints db → referential_integrity db →
  schema_constraints (fst (create_merchant merchant db)) ∧
  referential_integrity (fst (create_merchant merchant db)).
Proof.
  intros Hs Hr. unfold create_merchant, find_merchant.
  destruct (head (filter _ (merchants db))) as [existing|] eqn:Hhead; cbn [fst]; [done|].
  pose proof (proj1 (head_filter_None _ _) Hhead) as Hno.
  destruct Hs, Hr. split.
  - split; cbn [merchants orders payments]; try done.
    + rewrite fmap_app. apply NoDup_snoc_fresh; [done|apply next_id_fresh].
    + rewrite fmap_app. apply NoDup_snoc_fresh; [done|]. cbn.
      intros (m & Hid & Hm)%list_elem_of_fmap. by eapply Hno.
  - split; cbn [merchants orders payments]; try done.
    + intros o (m' & ? & ?)%orders_fk0. exists m'. split; [|done].
      apply elem_of_app. by left.
    + intros p (m' & ? & ?)%payments_fk0. exists m'. split; [|done].
      apply elem_of_app. by left.
Qed.

Lemma create_order_invariants duplicate_key_message order db :
  schema_constraints db → referential_integrity db →
  schema_constraints (fst (create_order duplicate_key_message order db)) ∧
  referential_integrity (fst (create_order duplicate_key_message order db)).
Proof.
  intros Hs Hr. unfold create_order, insert_order, find_merchant.
  destruct (head (filter _ (merchants db))) as [merchant|] eqn:Hhead; cbn [fst]; [|done].
  apply head_filter_Some in Hhead as [Hm _]. cbn [Order.merchant_order_id Order.amount].
  destruct (decide (fits_numeric_10_2 _)) as [Hfits|Hbig]; [|done].
  destruct (decide (_ ∈ _)) as [Hdup|Hfresh]; [by destruct (contains _ _)|].
  cbn [fst]. destruct Hs, Hr. split.
  - split; cbn [merchants orders payments]; try done.
    + rewrite fmap_app. apply NoDup_snoc_fresh; [done|apply next_id_fresh].
    + rewrite fmap_app. by apply NoDup_snoc_fresh.
  - split; cbn [merchants orders payments]; try done.
    + intros o' [Ho'| ->%list_elem_of_singleton]%elem_of_app; [by apply orders_fk0|].
      by exists merchant.
    + intros o' [Ho'| ->%list_elem_of_singleton]%elem_of_app; [by apply orders_dated0|].
      by eexists.
Qed.

Lemma create_payment_invariants duplicate_key_message payment db :
  schema_constraints db → referential_integrity db →
  schema_constraints (fst (create_payment duplicate_key_message payment db)) ∧
  referential_integrity (fst (create_payment duplicate_key_message payment db)).
Proof.
  intros Hs Hr. unfold create_payment, insert_payment, find_merchant.
  destruct (head (filter _ (merchants db))) as [merchant|] eqn:Hhead; cbn [fst]; [|done].
  apply head_filter_Some in Hhead as [Hm _]. cbn [Payment.merchant_order_id Payment.amount].
  destruct (decide (fits_numeric_10_2 _)) as [Hfits|Hbig]; [|done].
  destruct (decide (_ ∈ _)) as [Hdup|Hfresh]; [by destruct (contains _ _)|].
  cbn [fst]. destruct Hs, Hr. split.
  - split; cbn [merchants orders payments]; try done.
    + rewrite fmap_app. apply NoDup_snoc_fresh; [done|apply next_id_fresh].
    + rewrite fmap_app. by apply NoDup_snoc_fresh.
  - split; cbn [merchants orders payments]; try done.
    + intros p' [Hp'| ->%list_elem_of_singleton]%elem_of_app; [by apply payments_fk0|].
      by exists merchant.
    + intros p' [Hp'| ->%list_elem_of_singleton]%elem_of_app; [by apply payments_dated0|].
      by eexists.
Qed.

Lemma committed_invariants db :
  schema_constraints db → referential_integrity db →
  schema_constraints (committed db) ∧ referential_integrity (committed db).
Proof.
  intros Hs Hr. destruct Hs, Hr.
  assert (Order.id <$> orders (committed db) = Order.id <$> orders db) as Hoid.
  { rewrite committed_orders, <- list_fmap_compose. apply list_fmap_ext.
    intros _ o _. cbn. by case_decide. }
  assert (Order.merchant_order_id <$> orders (committed db)
          = Order.merchant_order_id <$> orders db) as Homoid.
  { rewrite committed_orders, <- list_fmap_compose. apply list_fmap_ext.
    intros _ o _. cbn. by case_decide. }
  assert (Payment.id <$> payments (committed db) = Payment.id <$> payments db) as Hpid.
  { rewrite committed_payments, <- list_fmap_compose. apply list_fmap_ext.
    intros _ p _. cbn. by case_decide. }
  assert (Payment.merchant_order_id <$> payments (committed db)
          = Payment.merchant_order_id <$> payments db) as Hpmoid.
  { rewrite committed_payments, <- list_fmap_compose. apply list_fmap_ext.
    intros _ p _. cbn. by case_decide. }
  split.
  - split; rewrite ?committed_merchants, ?Hoid, ?Homoid, ?Hpid, ?Hpmoid; done.
  - split; rewrite ?committed_merchants.
    + rewrite committed_orders. intros o' (o & -> & Ho)%list_elem_of_fmap.
      apply orders_fk0 in Ho. by case_decide.
    + rewrite committed_payments. intros p' (p & -> & Hp)%list_elem_of_fmap.
      apply payments_fk0 in Hp. by case_decide.
    + rewrite committed_orders. intros o' (o & -> & Ho)%list_elem_of_fmap.
      apply orders_dated0 in Ho. by case_decide.
    + rewrite committed_payments. intros p' (p & -> & Hp)%list_elem_of_fmap.
      apply payments_dated0 in Hp. by case_decide.
Qed.

Lemma handle_invariants duplicate_key_message db request :
  schema_constraints db ∧ referential_integrity db →
  schema_constraints (handle duplicate_key_message db request) ∧
  referential_integrity (handle duplicate_key_message db request).
Proof.
  intros [Hs Hr]. destruct request as [merchant|order|payment|fault]; cbn [handle].
  - by apply create_merchant_invariants.
  - by apply create_order_invariants.
  - by apply create_payment_invariants.
  - rewrite reconcile_transactions_cases.
    destruct fault as [[]|]; try destruct (reads_after_commit _ _);
      cbn [fst reconciliation_failed]; try done; by apply committed_invariants.
Qed.

(** Every POST route keeps the keys unique, the foreign keys resolved and
    the dates present, whether it succeeds or fails. *)
Theorem handle_keeps_invariants duplicate_key_message db request :
  schema_constraints db → referential_integrity db →
  schema_constraints (handle duplicate_key_message db request) ∧
  referential_integrity (handle duplicate_key_message db request).
Proof. intros Hs Hr. by apply handle_invariants. Qed.

Lemma handle_keeps_invariants_witness :
  schema_constraints
    (handle mysql_duplicate_key_message (scenario 10000 739281) (POST_reconciliation None)) ∧
  referential_integrity
    (handle mysql_duplicate_key_message (scenario 10000 739281) (POST_reconciliation None)).
Proof.
  apply (handle_keeps_invariants mysql_duplicate_key_message (scenario 10000 739281)
           (POST_reconciliation None)).
  - split; apply (bool_decide_unpack _); vm_compute; exact I.
  - split; intros x ->%list_elem_of_singleton; cbn; eauto using list_elem_of_here.
Defined.

Lemma serve_invariants duplicate_key_message requests :
  schema_constraints (serve duplicate_key_message requests empty_store) ∧
  referential_integrity (serve duplicate_key_message requests empty_store).
Proof.
  unfold serve.
  assert (schema_constraints empty_store ∧ referential_integrity empty_store) as Hinit.
  { split; split; cbn; try constructor; by intros ? ?%elem_of_nil. }
  revert Hinit. generalize empty_store.
  induction requests as [|request requests IH]; intros db Hdb; [done|].
  cbn [foldl]. by apply IH, handle_invariants.
Qed.

(** Whatever requests are served on the empty database, in the resulting
    store the primary keys and the unique keys hold, every order and payment
    refers to a stored merchant, and every order and payment has its date. *)
Theorem served_store_invariants duplicate_key_message requests :
  schema_constraints (serve duplicate_key_message requests empty_store) ∧
  referential_integrity (serve duplicate_key_message requests empty_store).
Proof. apply serve_invariants. Qed.

(** ** After a run *)

Lemma rules_hold_satisfies o p : spec_satisfies ∅ o p ↔ rules_hold o p.
Proof.
  unfold spec_satisfies, rules_hold, spec_within_window. split.
  - intros (_ & ? & ? & ? & Hw). split_and!; [done..|].
    intros od pd Hod Hpd. by rewrite Hod, Hpd in Hw.
  - intros (? & ? & ? & Hw). split_and!; [apply not_elem_of_empty|done..|].
    destruct (Order.order_date o), (Payment.payment_date p); try done. by apply Hw.
Qed.

(** After a run that went through, the rows a matched pair names by their
    keys exist and are reconciled. *)
Theorem matched_rows_are_reconciled fault db db' r mp :
  reconcile_transactions fault db = (db', inr r) →
  mp ∈ ReconciliationResult.matched_pairs r →
  (∃ o, o ∈ orders db' ∧ Order.id o = MatchedPair.order_id mp) ∧
  (∃ p, p ∈ payments db' ∧ Payment.id p = MatchedPair.payment_id mp) ∧
  (∀ o, o ∈ orders db' → Order.id o = MatchedPair.order_id mp →
        Order.status o = OrderStatus.reconciled) ∧
  (∀ p, p ∈ payments db' → Payment.id p = MatchedPair.payment_id mp →
        Payment.status p = PaymentStatus.reconciled).
Proof.
  intros (_ & -> & ->)%reconcile_transactions_inr
         ([o p] & -> & Hin)%list_elem_of_fmap.
  pose proof Hin as (Ho & Hp & _)%matching_elem.
  apply list_elem_of_filter in Ho as [_ Ho], Hp as [_ Hp].
  assert (Order.id o ∈ Order.id <$> matched_orders (matching db)) as Hoid.
  { apply list_elem_of_fmap_2. by apply (list_elem_of_fmap_2 fst _ (o, p)). }
  assert (Payment.id p ∈ Payment.id <$> matched_payments (matching db)) as Hpid.
  { apply list_elem_of_fmap_2. by apply (list_elem_of_fmap_2 snd _ (o, p)). }
  rewrite committed_orders, committed_payments. cbn [pair_of MatchedPair.order_id
    MatchedPair.payment_id fst snd]. split_and!.
  - eexists. split; [by apply list_elem_of_fmap_2|]. by case_decide.
  - eexists. split; [by apply list_elem_of_fmap_2|]. by case_decide.
  - intros o' (row & -> & Hrow)%list_elem_of_fmap. case_decide as Hdec; [done|].
    intros Hid. by rewrite Hid in Hdec.
  - intros p' (row & -> & Hrow)%list_elem_of_fmap. case_decide as Hdec; [done|].
    intros Hid. by rewrite Hid in Hdec.
Qed.

Lemma matched_rows_are_reconciled_witness :
  (∃ o, o ∈ orders (committed (scenario 10000 739281)) ∧ Order.id o = 1) ∧
  (∃ p, p ∈ payments (committed (scenario 10000 739281)) ∧ Payment.id p = 1) ∧
  (∀ o, o ∈ orders (committed (scenario 10000 739281)) → Order.id o = 1 →
        Order.status o = OrderStatus.reconciled) ∧
  (∀ p, p ∈ payments (committed (scenario 10000 739281)) → Payment.id p = 1 →
        Payment.status p = PaymentStatus.reconciled).
Proof.
  apply (matched_rows_are_reconciled None (scenario 10000 739281)
           (committed (scenario 10000 739281))
           (ReconciliationResult.mk 1%nat [MatchedPair.mk 1 1 "ORDER_001" (Float 10000)] [] [])
           (MatchedPair.mk 1 1 "ORDER_001" (Float 10000))).
  - vm_compute. reflexivity.
  - apply list_elem_of_here.
Defined.

(** A run that went through leaves no match behind: no order and payment
    that are still completed afterwards satisfy the matching rules. *)
Theorem no_match_left_behind fault db db' r o p :
  reconcile_transactions fault db = (db', inr r) →
  o ∈ query_completed_orders db' →
  p ∈ query_completed_payments db' →
  ¬ rules_hold o p.
Proof.
  intros (_ & -> & _)%reconcile_transactions_inr.
  rewrite completed_orders_committed, completed_payments_committed.
  intros [Ho Hos]%list_elem_of_filter [Hp Hps]%list_elem_of_filter Hrules.
  apply rules_hold_satisfies in Hrules. revert Hrules.
  eapply (first_fit_unmatched ∅); try done; apply not_elem_of_empty.
Qed.

Lemma no_match_left_behind_witness :
  ¬ rules_hold
      (Order.mk 4 (Some 2) "ORDER_004" 900 "EUR" None (Some 739281) OrderStatus.completed)
      (Payment.mk 1 (Some 2) "ORDER_004" 900 "EUR" None (Some 739290) PaymentStatus.completed).
Proof.
  apply (no_match_left_behind None busy_store (committed busy_store)
           (ReconciliationResult.mk 2%nat
              [MatchedPair.mk 1 3 "ORDER_001" (Float 10000);
               MatchedPair.mk 3 2 "ORDER_003" (Float 700)]
              ["ORDER_004"] ["ORDER_004"])).
  - vm_compute. reflexivity.
  - vm_compute. apply list_elem_of_here.
  - vm_compute. apply list_elem_of_here.
Defined.

(** After a run that went through, [GET /discrepancies] lists exactly the
    records the run reported as unmatched, in the same order. *)
Theorem discrepancies_after_run fault db db' r :
  reconcile_transactions fault db = (db', inr r) →
  Order.merchant_order_id <$> DiscrepanciesResponse.unmatched_orders (get_discrepancies db')
    = ReconciliationResult.unmatched_orders r ∧
  Payment.merchant_order_id <$> DiscrepanciesResponse.unmatched_payments (get_discrepancies db')
    = ReconciliationResult.unmatched_payments r.
Proof.
  intros (-> & -> & _)%reconcile_transactions_inr.
  unfold run_result, get_discrepancies.
  cbn [DiscrepanciesResponse.unmatched_orders DiscrepanciesResponse.unmatched_payments
       ReconciliationResult.unmatched_orders ReconciliationResult.unmatched_payments].
  by rewrite completed_orders_committed, completed_payments_committed.
Qed.

Lemma discrepancies_after_run_witness :
  Order.merchant_order_id <$>
    DiscrepanciesResponse.unmatched_orders (get_discrepancies (committed busy_store))
    = ["ORDER_004"] ∧
  Payment.merchant_order_id <$>
    DiscrepanciesResponse.unmatched_payments (get_discrepancies (committed busy_store))
    = ["ORDER_004"].
Proof.
  apply (discrepancies_after_run None busy_store (committed busy_store)
           (ReconciliationResult.mk 2%nat
              [MatchedPair.mk 1 3 "ORDER_001" (Float 10000);
               MatchedPair.mk 3 2 "ORDER_003" (Float 700)]
              ["ORDER_004"] ["ORDER_004"])).
  vm_compute. reflexivity.
Defined.

(** ** The matching under the unique keys *)

Lemma first_fit_complete consumed orders payments :
  NoDup (Order.merchant_order_id <$> orders) →
  NoDup (Payment.merchant_order_id <$> payments) →
  NoDup (Payment.id <$> payments) →
  (∀ q, q ∈ payments → Payment.id q ∈ consumed →
        Payment.merchant_order_id q ∉ Order.merchant_order_id <$> orders) →
  ∀ o p, o ∈ orders → p ∈ payments → spec_satisfies ∅ o p →
         (o, p) ∈ spec_first_fit consumed orders payments.
Proof.
  intros Hos Hps Hpid. revert consumed.
  induction orders as [|o' os IH]; intros consumed Hcons o p Ho Hp Hs;
    [by apply elem_of_nil in Ho|].
  rewrite fmap_cons in Hos. apply NoDup_cons in Hos as [Ho' Hos].
  cbn [spec_first_fit]. apply elem_of_cons in Ho as [->|Ho].
  - assert (spec_satisfies consumed o' p) as Hsc.
    { apply satisfies_consumed. split; [|done]. intros Hin.
      apply (Hcons p Hp Hin). destruct Hs as (_ & -> & _). rewrite fmap_cons. by left. }
    destruct (list_find _ payments) as [[i p']|] eqn:Hf.
    + apply list_find_Some in Hf as (Hi & Hs' & _).
      apply list_elem_of_lookup_2 in Hi.
      assert (p' = p) as ->; [|by left].
      eapply NoDup_fmap_eq; [exact Hps|done..|].
      destruct Hs as (_ & -> & _), Hs' as (_ & -> & _). done.
    + apply list_find_None in Hf. eapply Forall_forall in Hf; [|exact Hp]. done.
  - destruct (list_find _ payments) as [[i p']|] eqn:Hf.
    + right. apply list_find_Some in Hf as (Hi & Hs' & _).
      apply list_elem_of_lookup_2 in Hi.
      apply IH; try done.
      intros q Hq [Heq%elem_of_singleton|Hin]%elem_of_union.
      * assert (q = p') as -> by (eapply NoDup_fmap_eq; [exact Hpid|done..]).
        destruct Hs' as (_ & -> & _). done.
      * apply Hcons in Hin; [|done]. rewrite fmap_cons in Hin.
        by apply not_elem_of_cons in Hin as [_ ?].
    + apply IH; try done.
      intros q Hq Hin. apply Hcons in Hin; [|done]. rewrite fmap_cons in Hin.
      by apply not_elem_of_cons in Hin as [_ ?].
Qed.

Lemma matching_iff_rules db o p :
  schema_constraints db →
  (o, p) ∈ matching db ↔
  o ∈ query_completed_orders db ∧ p ∈ query_completed_payments db ∧ rules_hold o p.
Proof.
  intros Hdb. rewrite <- rules_hold_satisfies. split; [apply matching_elem|].
  intros (Ho & Hp & Hs). apply first_fit_complete; try done.
  - eapply sublist_NoDup; [apply (orders_unique db Hdb)|].
    apply fmap_sublist, sublist_filter.
  - eapply sublist_NoDup; [apply (payments_unique db Hdb)|].
    apply fmap_sublist, sublist_filter.
  - eapply sublist_NoDup; [apply (payments_pk db Hdb)|].
    apply fmap_sublist, sublist_filter.
Qed.

(** With the unique keys of the schema, the first fit decides each pair on
    its own: a completed order and a completed payment are recorded as a pair
    exactly when they satisfy the matching rules. *)
Theorem matched_exactly_when_rules_hold fault db db' r o p :
  schema_constraints db →
  reconcile_transactions fault db = (db', inr r) →
  o ∈ query_completed_orders db →
  p ∈ query_completed_payments db →
  (∃ mp, mp ∈ ReconciliationResult.matched_pairs r ∧
         MatchedPair.order_id mp = Order.id o ∧
         MatchedPair.payment_id mp = Payment.id p)
  ↔ rules_hold o p.
Proof.
  intros Hdb (_ & _ & ->)%reconcile_transactions_inr Ho Hp. split.
  - intros (mp & ([o' p'] & -> & Hin)%list_elem_of_fmap & Hoid & Hpid).
    apply (matching_iff_rules db o' p' Hdb) in Hin as (Ho' & Hp' & Hrules).
    apply list_elem_of_filter in Ho as [_ Ho], Hp as [_ Hp],
                                 Ho' as [_ Ho'], Hp' as [_ Hp'].
    assert (o' = o) as -> by (eapply NoDup_fmap_eq; [apply (orders_pk db Hdb)|done..]).
    assert (p' = p) as -> by (eapply NoDup_fmap_eq; [apply (payments_pk db Hdb)|done..]).
    done.
  - intros Hrules. exists (pair_of (o, p)). split; [|done].
    apply list_elem_of_fmap_2. by apply matching_iff_rules.
Qed.

Lemma matched_exactly_when_rules_hold_witness :
  (∃ mp, mp ∈ [MatchedPair.mk 1 1 "ORDER_001" (Float 10000)] ∧
         MatchedPair.order_id mp = Order.id order_001 ∧
         MatchedPair.payment_id mp = Payment.id (payment_001 10000 739281))
  ↔ rules_hold order_001 (payment_001 10000 739281).
Proof.
  apply (matched_exactly_when_rules_hold None (scenario 10000 739281)
           (committed (scenario 10000 739281))
           (ReconciliationResult.mk 1%nat [MatchedPair.mk 1 1 "ORDER_001" (Float 10000)] [] [])).
  - split; apply (bool_decide_unpack _); vm_compute; exact I.
  - vm_compute. reflexivity.
  - vm_compute. apply list_elem_of_here.
  - vm_compute. apply list_elem_of_here.
Defined.

Lemma matching_NoDup db : NoDup (matching db).
Proof.
  apply (NoDup_fmap_1 snd), (NoDup_fmap_1 Payment.id), first_fit_payments_NoDup.
Qed.

Lemma schema_constraints_Permutation db1 db2 :
  merchants db1 ≡ₚ merchants db2 → orders db1 ≡ₚ orders db2 →
  payments db1 ≡ₚ payments db2 →
  schema_constraints db1 → schema_constraints db2.
Proof.
  intros Hm Ho Hp []. split; by rewrite <- ?Hm, <- ?Ho, <- ?Hp.
Qed.

Lemma matching_Permutation db1 db2 :
  schema_constraints db1 →
  merchants db1 ≡ₚ merchants db2 → orders db1 ≡ₚ orders db2 →
  payments db1 ≡ₚ payments db2 →
  matching db1 ≡ₚ matching db2.
Proof.
  intros Hdb1 Hm Ho Hp.
  pose proof (schema_constraints_Permutation db1 db2 Hm Ho Hp Hdb1) as Hdb2.
  apply NoDup_Permutation; [apply matching_NoDup..|].
  intros [o p]. rewrite !matching_iff_rules by done.
  unfold query_completed_orders, query_completed_payments. by rewrite Ho, Hp.
Qed.

(** With the unique keys of the schema the read order plays no part: two
    stores holding the same rows in different orders give the same matched
    pairs and the same unmatched identifiers, up to their order. *)
Theorem read_order_is_immaterial fault1 fault2 db1 db2 db1' db2' r1 r2 :
  schema_constraints db1 →
  merchants db1 ≡ₚ merchants db2 → orders db1 ≡ₚ orders db2 →
  payments db1 ≡ₚ payments db2 →
  reconcile_transactions fault1 db1 = (db1', inr r1) →
  reconcile_transactions fault2 db2 = (db2', inr r2) →
  ReconciliationResult.matched_count r1 = ReconciliationResult.matched_count r2 ∧
  ReconciliationResult.matched_pairs r1 ≡ₚ ReconciliationResult.matched_pairs r2 ∧
  ReconciliationResult.unmatched_orders r1 ≡ₚ ReconciliationResult.unmatched_orders r2 ∧
  ReconciliationResult.unmatched_payments r1 ≡ₚ ReconciliationResult.unmatched_payments r2.
Proof.
  intros Hdb1 Hm Ho Hp Hrun1 Hrun2.
  pose proof (matching_Permutation db1 db2 Hdb1 Hm Ho Hp) as Hperm.
  apply reconcile_transactions_inr in Hrun1 as (-> & _ & _).
  apply reconcile_transactions_inr in Hrun2 as (-> & _ & _).
  unfold run_result.
  cbn [ReconciliationResult.matched_count ReconciliationResult.matched_pairs
       ReconciliationResult.unmatched_orders ReconciliationResult.unmatched_payments].
  split_and!.
  - by rewrite Hperm.
  - by rewrite Hperm.
  - apply fmap_Permutation. unfold query_completed_orders. rewrite Ho.
    erewrite list_filter_iff; [done|]. intros o. cbn. unfold matched_orders.
    by rewrite Hperm.
  - apply fmap_Permutation. unfold query_completed_payments. rewrite Hp.
    erewrite list_filter_iff; [done|]. intros p. cbn. unfold matched_payments.
    by rewrite Hperm.
Qed.

Lemma read_order_is_immaterial_witness :
  2%nat = 2%nat ∧
  [MatchedPair.mk 1 3 "ORDER_001" (Float 10000); MatchedPair.mk 3 2 "ORDER_003" (Float 700)]
    ≡ₚ [MatchedPair.mk 3 2 "ORDER_003" (Float 700); MatchedPair.mk 1 3 "ORDER_001" (Float 10000)] ∧
  ["ORDER_004"] ≡ₚ ["ORDER_004"] ∧
  ["ORDER_004"] ≡ₚ ["ORDER_004"].
Proof.
  apply (read_order_is_immaterial None None busy_store busy_store_reversed
           (committed busy_store) (committed busy_store_reversed)
           (ReconciliationResult.mk 2%nat
              [MatchedPair.mk 1 3 "ORDER_001" (Float 10000);
               MatchedPair.mk 3 2 "ORDER_003" (Float 700)]
              ["ORDER_004"] ["ORDER_004"])
           (ReconciliationResult.mk 2%nat
              [MatchedPair.mk 3 2 "ORDER_003" (Float 700);
               MatchedPair.mk 1 3 "ORDER_001" (Float 10000)]
              ["ORDER_004"] ["ORDER_004"])).
  - split; apply (bool_decide_unpack _); vm_compute; exact I.
  - symmetry. apply reverse_Permutation.
  - symmetry. apply reverse_Permutation.
  - symmetry. apply reverse_Permutation.
  - vm_compute. reflexivity.
  - vm_compute. reflexivity.
Defined.

(** ** The report across a run *)








(** ** The per-merchant summary *)

Lemma dict_of_snoc {V} (rows : list (Z * V)) row :
  dict_of (rows ++ [row]) = <[row.1 := row.2]> (dict_of rows).
Proof. unfold dict_of. by rewrite foldl_app. Qed.

Lemma dict_of_lookup_Some {V} (rows : list (Z * V)) k v :
  NoDup (fst <$> rows) → (k, v) ∈ rows → dict_of rows !! k = Some v.
Proof.
  induction rows as [|[k' v'] rows IH] using rev_ind; [by intros _ ?%elem_of_nil|].
  rewrite fmap_app, NoDup_app, dict_of_snoc. cbn.
  intros (Hnd & Hfresh & _) [Hin|[= -> ->]%list_elem_of_singleton]%elem_of_app.
  - rewrite lookup_insert_ne; [by apply IH|].
    intros ->. eapply Hfresh; [|by left].
    by apply (list_elem_of_fmap_2 fst _ (k, v)).
  - apply lookup_insert_eq.
Qed.

Lemma filter_nil_iff {A} (P : A → Prop) `{!∀ x, Decision (P x)} (l : list A) :
  filter P l = [] ↔ ∀ x, x ∈ l → ¬ P x.
Proof.
  split.
  - intros Hnil x Hx HP.
    assert (x ∈ filter P l) as Hin by (by apply list_elem_of_filter).
    rewrite Hnil in Hin. by apply elem_of_nil in Hin.
  - intros Hno. induction l as [|a l IH]; [done|].
    rewrite filter_cons_False by (apply Hno; by left).
    apply IH. intros x ?. apply Hno. by right.
Qed.

(** A dictionary built from a GROUP BY: a key is bound exactly when its group
    has a row, to the value computed from the whole group. *)
Lemma dict_of_group_by {A V} (key : A → option Z) (rows : list A) (val : list A → V) k :
  dict_of ((λ g, (g.1, val g.2)) <$> group_by key rows) !! k =
    match filter (λ r, key r = Some k) rows with
    | [] => None
    | g => Some (val g)
    end.
Proof.
  destruct (filter (λ r, key r = Some k) rows) as [|r g] eqn:Hg.
  - destruct (dict_of _ !! k) as [v|] eqn:Hk; [exfalso|done].
    apply dict_of_lookup, list_elem_of_fmap in Hk as ([k' g'] & [= <- _] & Hin).
    apply group_by_elem in Hin as (r & Hr & Hkey).
    by eapply (proj1 (filter_nil_iff _ _) Hg r).
  - rewrite <- Hg. apply dict_of_lookup_Some.
    + rewrite <- list_fmap_compose. unfold group_by. rewrite <- list_fmap_compose.
      cbn. rewrite list_fmap_id. apply NoDup_remove_dups.
    + apply list_elem_of_fmap.
      exists (k, filter (λ r, key r = Some k) rows). split; [done|].
      unfold group_by. apply list_elem_of_fmap. exists k. split; [done|].
      apply elem_of_remove_dups, list_elem_of_omap.
      assert (r ∈ filter (λ r, key r = Some k) rows) as [? ?]%list_elem_of_filter
        by (rewrite Hg; by left).
      eauto.
Qed.

Lemma filter_not_None {A} (key : A → option Z) (rows : list A) k :
  filter (λ r, key r = Some k) (filter (λ r, key r ≠ None) rows)
  = filter (λ r, key r = Some k) rows.
Proof. apply list_filter_filter_l. by intros r ->. Qed.

Lemma reconciled_dict_lookup db k :
  dict_of ((λ row, (row.1, (row.2.1, float (total_or_0 row.2.2))))
             <$> reconciled_by_merchant db) !! k =
    match filter (λ p, Payment.merchant_id p = Some k) (reconciled_payments db) with
    | [] => None
    | g => Some (sql_count g, float (sum_amounts (Payment.amount <$> g)))
    end.
Proof.
  unfold reconciled_by_merchant. rewrite <- list_fmap_compose, <- filter_not_None.
  etrans; [apply (dict_of_group_by Payment.merchant_id _
                    (λ g, (sql_count g, float (total_or_0 (sql_sum (Payment.amount <$> g))))))|].
  destruct (filter _ (filter _ _)); [done|]. by rewrite total_or_0_sum.
Qed.

Lemma unmatched_orders_dict_lookup db k :
  dict_of (unmatched_orders_by_merchant db) !! k =
    match filter (λ o, Order.merchant_id o = Some k) (query_completed_orders db) with
    | [] => None
    | g => Some (sql_count g)
    end.
Proof.
  unfold unmatched_orders_by_merchant. rewrite <- filter_not_None.
  apply (dict_of_group_by Order.merchant_id _ sql_count).
Qed.

Lemma unmatched_payments_dict_lookup db k :
  dict_of (unmatched_payments_by_merchant db) !! k =
    match filter (λ p, Payment.merchant_id p = Some k) (query_completed_payments db) with
    | [] => None
    | g => Some (sql_count g)
    end.
Proof.
  unfold unmatched_payments_by_merchant. rewrite <- filter_not_None.
  apply (dict_of_group_by Payment.merchant_id _ sql_count).
Qed.

Lemma is_Some_group {A B} (P : A → Prop) `{!∀ x, Decision (P x)} (l : list A) (v : list A → B) :
  is_Some (match filter P l with [] => None | g => Some (v g) end)
  ↔ ∃ x, x ∈ l ∧ P x.
Proof.
  destruct (filter P l) as [|x g] eqn:Hg.
  - split; [by intros [? ?]|]. intros (x & Hx & HP).
    by destruct (proj1 (filter_nil_iff _ _) Hg x).
  - split; [intros _|by eexists].
    assert (x ∈ filter P l) as [? ?]%list_elem_of_filter by (rewrite Hg; by left).
    eauto.
Qed.

Lemma merchants_summary_NoDup db :
  NoDup (MerchantSummary.merchant_id <$> merchants_summary db).
Proof.
  unfold merchants_summary. cbn zeta.
  rewrite <- list_fmap_compose. cbn. rewrite list_fmap_id. apply NoDup_elements.
Qed.

Lemma merchants_summary_keys db k :
  k ∈ MerchantSummary.merchant_id <$> merchants_summary db ↔
  (∃ p, p ∈ reconciled_payments db ∧ Payment.merchant_id p = Some k) ∨
  (∃ o, o ∈ query_completed_orders db ∧ Order.merchant_id o = Some k) ∨
  (∃ p, p ∈ query_completed_payments db ∧ Payment.merchant_id p = Some k).
Proof.
  unfold merchants_summary. cbn zeta.
  rewrite <- list_fmap_compose. cbn. rewrite list_fmap_id.
  rewrite elem_of_elements, !elem_of_union, !elem_of_dom.
  rewrite reconciled_dict_lookup, unmatched_orders_dict_lookup,
    unmatched_payments_dict_lookup.
  rewrite (is_Some_group _ (reconciled_payments db)
             (λ g, (sql_count g, float (sum_amounts (Payment.amount <$> g))))).
  rewrite !(is_Some_group _ _ sql_count).
  cbn beta. tauto.
Qed.

Lemma merchants_summary_figures db row :
  row ∈ merchants_summary db →
  row =
    MerchantSummary.mk (MerchantSummary.merchant_id row)
      (Z.of_nat (length (filter (λ p, Payment.merchant_id p = Some (MerchantSummary.merchant_id row))
                                (reconciled_payments db))))
      (float (sum_amounts (Payment.amount <$>
                filter (λ p, Payment.merchant_id p = Some (MerchantSummary.merchant_id row))
                       (reconciled_payments db))))
      (Z.of_nat (length (filter (λ o, Order.merchant_id o = Some (MerchantSummary.merchant_id row))
                                (query_completed_orders db))))
      (Z.of_nat (length (filter (λ p, Payment.merchant_id p = Some (MerchantSummary.merchant_id row))
                                (query_completed_payments db)))).
Proof.
  unfold merchants_summary. cbn zeta.
  intros (k & -> & _)%list_elem_of_fmap. cbn.
  rewrite reconciled_dict_lookup, unmatched_orders_dict_lookup,
    unmatched_payments_dict_lookup.
  f_equal.
  - by destruct (filter _ (reconciled_payments db)).
  - by destruct (filter _ (reconciled_payments db)).
  - by destruct (filter _ (query_completed_orders db)).
  - by destruct (filter _ (query_completed_payments db)).
Qed.

(** The per-merchant breakdown of the report: one row per merchant reference
    that has a reconciled payment, a completed order or a completed payment,
    no reference twice; each row counts the merchant's reconciled payments
    and sums their amounts, and counts its completed orders and payments. *)
Theorem merchants_summary_rows db :
  NoDup (MerchantSummary.merchant_id <$> merchants_summary db) ∧
  (∀ k, k ∈ MerchantSummary.merchant_id <$> merchants_summary db ↔
        (∃ p, p ∈ reconciled_payments db ∧ Payment.merchant_id p = Some k) ∨
        (∃ o, o ∈ query_completed_orders db ∧ Order.merchant_id o = Some k) ∨
        (∃ p, p ∈ query_completed_payments db ∧ Payment.merchant_id p = Some k)) ∧
  ∀ row, row ∈ merchants_summary db →
    let k := MerchantSummary.merchant_id row in
    MerchantSummary.reconciled_count row =
      Z.of_nat (length (filter (λ p, Payment.merchant_id p = Some k)
                               (reconciled_payments db))) ∧
    MerchantSummary.reconciled_amount row =
      float (sum_amounts (Payment.amount <$>
               filter (λ p, Payment.merchant_id p = Some k) (reconciled_payments db))) ∧
    MerchantSummary.unmatched_orders row =
      Z.of_nat (length (filter (λ o, Order.merchant_id o = Some k)
                               (query_completed_orders db))) ∧
    MerchantSummary.unmatched_payments row =
      Z.of_nat (length (filter (λ p, Payment.merchant_id p = Some k)
                               (query_completed_payments db))).
Proof.
  split_and!; [apply merchants_summary_NoDup|apply merchants_summary_keys|].
  intros row Hrow. cbn zeta.
  pose proof (merchants_summary_figures db row Hrow) as Heq.
  destruct row as [k c a uo up]. cbn in *. by injection Heq as -> -> -> ->.
Qed.

(** ** The breakdown adds up to the totals *)








(** ** Records created through the API *)

(** Every order and payment created through the API has its date, so that
    the date rule is never skipped: on a store built by requests from the
    empty database, each matched pair comes from an order and a payment with
    both dates present and at most three days apart. *)
Theorem served_matches_are_dated duplicate_key_message requests fault db' r mp :
  reconcile_transactions fault (serve duplicate_key_message requests empty_store)
    = (db', inr r) →
  mp ∈ ReconciliationResult.matched_pairs r →
  ∃ o p order_date payment_date,
    o ∈ orders (serve duplicate_key_message requests empty_store) ∧
    p ∈ payments (serve duplicate_key_message requests empty_store) ∧
    MatchedPair.order_id mp = Order.id o ∧
    MatchedPair.payment_id mp = Payment.id p ∧
    Order.order_date o = Some order_date ∧
    Payment.payment_date p = Some payment_date ∧
    Z.abs (payment_date - order_date) ≤ 3.
Proof.
  intros (_ & _ & ->)%reconcile_transactions_inr
         ([o p] & -> & Hin)%list_elem_of_fmap.
  apply matching_elem in Hin as (Ho & Hp & Hs).
  apply list_elem_of_filter in Ho as [_ Ho], Hp as [_ Hp].
  destruct (serve_invariants duplicate_key_message requests) as [_ Hint].
  destruct (orders_dated _ Hint o Ho) as [od Hod].
  destruct (payments_dated _ Hint p Hp) as [pd Hpd].
  exists o, p, od, pd. split_and!; try done.
  apply rules_hold_satisfies in Hs as (_ & _ & _ & Hw). by apply Hw.
Qed.

Lemma served_matches_are_dated_witness :
  ∃ o p order_date payment_date,
    o ∈ orders (serve mysql_duplicate_key_message
                  [POST_merchants (MerchantCreate.mk "M1" "Merchant one");
                   POST_orders (OrderCreate.mk "M1" "ORDER_001" 10000 "USD" None 739280
                                               OrderStatus.completed);
                   POST_payments (PaymentCreate.mk "M1" "ORDER_001" 10000 "USD" None 739281
                                                   PaymentStatus.completed)]
                  empty_store) ∧
    p ∈ payments (serve mysql_duplicate_key_message
                  [POST_merchants (MerchantCreate.mk "M1" "Merchant one");
                   POST_orders (OrderCreate.mk "M1" "ORDER_001" 10000 "USD" None 739280
                                               OrderStatus.completed);
                   POST_payments (PaymentCreate.mk "M1" "ORDER_001" 10000 "USD" None 739281
                                                   PaymentStatus.completed)]
                  empty_store) ∧
    1 = Order.id o ∧ 1 = Payment.id p ∧
    Order.order_date o = Some order_date ∧
    Payment.payment_date p = Some payment_date ∧
    Z.abs (payment_date - order_date) ≤ 3.
Proof.
  eapply (served_matches_are_dated mysql_duplicate_key_message _ None _ _
            (MatchedPair.mk 1 1 "ORDER_001" (Float 10000))).
  - vm_compute. reflexivity.
  - apply list_elem_of_here.
Defined.

(** ** Creation and the other endpoints *)

(** A creation that succeeded is refused when repeated, with 409 for a
    merchant and 400 for an order or a payment, and the repeated request
    changes nothing. *)
Theorem repeated_create_is_refused duplicate_key_message db :
  (∀ merchant db' m,
     create_merchant merchant db = (db', inr m) →
     ∃ e, create_merchant merchant db' = (db', inl e) ∧
          HTTPException.status_code e = HTTP_409_CONFLICT) ∧
  (∀ order db' o,
     create_order duplicate_key_message order db = (db', inr o) →
     ∃ e, create_order duplicate_key_message order db' = (db', inl e) ∧
          HTTPException.status_code e = HTTP_400_BAD_REQUEST) ∧
  (∀ payment db' p,
     create_payment duplicate_key_message payment db = (db', inr p) →
     ∃ e, create_payment duplicate_key_message payment db' = (db', inl e) ∧
          HTTPException.status_code e = HTTP_400_BAD_REQUEST).
Proof.
  split_and!.
  - intros merchant db' m. unfold create_merchant at 1, find_merchant.
    destruct (head (filter _ (merchants db))) as [existing|] eqn:Hhead; [done|].
    intros [= <- <-]. unfold create_merchant, find_merchant. cbn [merchants].
    rewrite head_filter_app_new; [by eexists| |done].
    exact (proj1 (head_filter_None _ _) Hhead).
  - intros order db' o. unfold create_order at 1, insert_order, find_merchant.
    destruct (head (filter _ (merchants db))) as [merchant|] eqn:Hhead; [|done].
    cbn [Order.merchant_order_id Order.amount].
    destruct (decide (fits_numeric_10_2 _)) as [Hfits|]; [|done].
    destruct (decide (_ ∈ _)) as [|Hfresh].
    { by destruct (contains _ _). }
    intros [= <- <-]. unfold create_order, insert_order, find_merchant.
    cbn [merchants orders Order.merchant_order_id Order.amount]. rewrite Hhead.
    rewrite (decide_True (P := fits_numeric_10_2 _)) by done.
    rewrite decide_True.
    + destruct (contains _ _); by eexists.
    + rewrite fmap_app. apply elem_of_app. right. by left.
  - intros payment db' p. unfold create_payment at 1, insert_payment, find_merchant.
    destruct (head (filter _ (merchants db))) as [merchant|] eqn:Hhead; [|done].
    cbn [Payment.merchant_order_id Payment.amount].
    destruct (decide (fits_numeric_10_2 _)) as [Hfits|]; [|done].
    destruct (decide (_ ∈ _)) as [|Hfresh].
    { by destruct (contains _ _). }
    intros [= <- <-]. unfold create_payment, insert_payment, find_merchant.
    cbn [merchants payments Payment.merchant_order_id Payment.amount]. rewrite Hhead.
    rewrite (decide_True (P := fits_numeric_10_2 _)) by done.
    rewrite decide_True.
    + destruct (contains _ _); by eexists.
    + rewrite fmap_app. apply elem_of_app. right. by left.
Qed.

Lemma repeated_create_is_refused_witness :
  ∃ e, create_order mysql_duplicate_key_message
         (OrderCreate.mk "M1" "ORDER_002" 500 "USD" None 739290 OrderStatus.pending)
         (mkStore [Merchant.mk 1 "M1" "Merchant one"]
            [order_001;
             Order.mk 2 (Some 1) "ORDER_002" 500 "USD" None (Some 739290) OrderStatus.pending]
            [payment_001 10000 739281])
       = (mkStore [Merchant.mk 1 "M1" "Merchant one"]
            [order_001;
             Order.mk 2 (Some 1) "ORDER_002" 500 "USD" None (Some 739290) OrderStatus.pending]
            [payment_001 10000 739281], inl e) ∧
       HTTPException.status_code e = HTTP_400_BAD_REQUEST.
Proof.
  apply (proj1 (proj2 (repeated_create_is_refused mysql_duplicate_key_message
                         (scenario 10000 739281)))
           (OrderCreate.mk "M1" "ORDER_002" 500 "USD" None 739290 OrderStatus.pending) _
           (Order.mk 2 (Some 1) "ORDER_002" 500 "USD" None (Some 739290) OrderStatus.pending)).
  vm_compute. reflexivity.
Defined.


